(** * convert_levels: the level converter of railbound_cp

    A shallow embedding of [src/convert_levels.py] and the properties its
    specification states about it.

    Python values are embedded as follows.
    - [int] is [Z]; the indices handed out by [enumerate] are [nat] and are
      injected into [Z] where the source adds one to them.
    - [str] is [string]; [List[...]] is [list]; a tuple is a product.
    - A [dict] that is only read (the translation tables) is an association
      list in the order the source writes it.  The one [dict] that is
      built, [tunnel_endpoints], is an association list in insertion order,
      as Python keeps it.
    - An exception is a value of [exn]; code that can raise lives in the
      [result] monad, and statements run in source order, so the first
      exception raised is the one returned.
    - The file system [main] writes to is a finite map from paths to file
      contents. *)

From Stdlib Require Import ZArith String Ascii List Lia Sorted.
From stdpp Require Import base option list strings pretty sorting gmap.

Open Scope string_scope.
Open Scope list_scope.
Open Scope Z_scope.

(** ** Exceptions and the [result] monad *)

Inductive exn : Type :=
  | ValueError (msg : string)
  | KeyError (key : string)
  | KeyErrorInt (key : Z)
  | IndexError.

Inductive result (A : Type) : Type :=
  | Ok (a : A)
  | Raise (e : exn).
Arguments Ok {A} a.
Arguments Raise {A} e.

Definition bind {A B} (m : result A) (f : A → result B) : result B :=
  match m with
  | Ok a => f a
  | Raise e => Raise e
  end.

Notation "'let*' x := m 'in' k" := (bind m (fun x => k))
  (at level 10, x pattern, m at level 100, k at level 200).

Definition is_ok {A} (m : result A) : bool :=
  match m with Ok _ => true | Raise _ => false end.

(** A [for] loop whose body updates the loop state and may raise. *)
Fixpoint foldM {S X} (body : S → X → result S) (s : S) (xs : list X)
  : result S :=
  match xs with
  | [] => Ok s
  | x :: xs' => let* s' := body s x in foldM body s' xs'
  end.

(** [enumerate(l, start)] and [enumerate(l)] *)
Fixpoint enumerate_from {A} (start : nat) (l : list A) : list (nat * A) :=
  match l with
  | [] => []
  | x :: l' => (start, x) :: enumerate_from (S start) l'
  end.

Definition enumerate {A} (l : list A) : list (nat * A) := enumerate_from O l.

(** [grid[r][c]]: both subscripts raise [IndexError] out of range (the
    indices come from [enumerate], so they are never negative). *)
Definition getitem {A} (l : list A) (i : nat) : result A :=
  match l !! i with
  | Some x => Ok x
  | None => Raise IndexError
  end.

Definition getitem2 (grid : list (list Z)) (r c : nat) : result Z :=
  let* row := getitem grid r in getitem row c.

(** The two nested [for r, row in enumerate(grid): for c, val in
    enumerate(row):] loops that every pass of the converter has. *)
Definition for_cells {S} (grid : list (list Z))
    (body : nat → nat → Z → S → result S) (s : S) : result S :=
  foldM (fun s '(r, row) =>
           foldM (fun s '(c, val) => body r c val s) s (enumerate row))
        s (enumerate grid).

(** ** Mappings from JSON to MiniZinc *)

(** [dict] lookups on a read-only table. *)
Fixpoint assoc {K V} `{EqDecision K} (k : K) (d : list (K * V)) : option V :=
  match d with
  | [] => None
  | (k', v) :: d' => if decide (k = k') then Some v else assoc k d'
  end.

Definition BOARD_TO_TRACK : list (Z * option string) :=
  [ (0, None);
    (1, Some "STRAIGHT_RL");
    (2, Some "STRAIGHT_TD");
    (3, Some "STRAIGHT_RL");
    (4, Some "ROCK");
    (5, Some "CORNER_DR");
    (6, Some "CORNER_DL");
    (7, Some "CORNER_TR");
    (8, Some "CORNER_TL");
    (9, Some "SWITCH_L_R_D");
    (10, Some "SWITCH_T_D_R");
    (11, Some "SWITCH_L_R_D");
    (12, Some "SWITCH_T_D_L");
    (13, Some "SWITCH_L_R_T");
    (14, Some "SWITCH_D_T_R");
    (15, Some "SWITCH_R_L_T");
    (16, Some "SWITCH_D_T_L");
    (17, Some "TUNNEL_L");
    (18, Some "TUNNEL_R");
    (19, Some "TUNNEL_D");
    (20, Some "TUNNEL_T");
    (21, Some "STRAIGHT_RL");
    (22, Some "STRAIGHT_RL");
    (29, Some "STRAIGHT_RL");
    (30, Some "STRAIGHT_TD");
    (31, Some "STRAIGHT_TD");
    (34, Some "ROCK");
    (35, Some "ROCK");
    (36, Some "ROCK");
    (37, Some "ROCK") ].

(** [BOARD_TO_TRACK.get(board_val)]: [None] both for a key that is absent
    and for a key that maps to [None]. *)
Definition BOARD_TO_TRACK_get (board_val : Z) : option string :=
  match assoc board_val BOARD_TO_TRACK with
  | Some v => v
  | None => None
  end.

Definition MOD_SWITCH : Z := 1.
Definition MOD_TUNNEL : Z := 2.
Definition MOD_CLOSED_GATE : Z := 3.
Definition MOD_OPEN_GATE : Z := 4.
Definition MOD_SWAPPING_TRACK : Z := 5.
Definition MOD_STATION : Z := 6.
Definition MOD_SWITCH_RAIL : Z := 7.
Definition MOD_STARTING_CAR : Z := 10.

Definition DIRECTION_MAP : list (string * string) :=
  [ ("RIGHT", "RIGHT");
    ("LEFT", "LEFT");
    ("UP", "TOP");
    ("DOWN", "DOWN") ].

(** [DIRECTION_MAP[key]] *)
Definition DIRECTION_MAP_getitem (key : string) : result string :=
  match assoc key DIRECTION_MAP with
  | Some v => Ok v
  | None => Raise (KeyError key)
  end.

Definition TUNNEL_DIR : list (Z * string) :=
  [ (17, "LEFT");
    (18, "RIGHT");
    (19, "DOWN");
    (20, "TOP") ].

(** [val in TUNNEL_DIR] *)
Definition TUNNEL_DIR_contains (val : Z) : bool :=
  bool_decide (is_Some (assoc val TUNNEL_DIR)).

(** [TUNNEL_DIR[val]] *)
Definition TUNNEL_DIR_getitem (val : Z) : result string :=
  match assoc val TUNNEL_DIR with
  | Some v => Ok v
  | None => Raise (KeyErrorInt val)
  end.

(** ** Strings *)

(** [s.startswith(p)] *)
Definition startswith (p s : string) : bool := String.prefix p s.

(** [s.replace(old, new)] for a non-empty [old]: every occurrence of [old],
    found left to right without overlap, becomes [new].  [skip] counts the
    characters of an occurrence that was just replaced and that are still
    to be passed over. *)
Fixpoint replace_go (old new : string) (skip : nat) (s : string) : string :=
  match s with
  | EmptyString => EmptyString
  | String a s' =>
      match skip with
      | S k => replace_go old new k s'
      | O =>
          if String.prefix old s
          then new +:+ replace_go old new (Nat.pred (String.length old)) s'
          else String a (replace_go old new O s')
      end
  end.

Definition replace (old new s : string) : string := replace_go old new O s.

(** [f"{n}"] for an [int] *)
Definition str_of_int (n : Z) : string := pretty n.

(** [sep.join(parts)] *)
Definition join (sep : string) (parts : list string) : string :=
  String.concat sep parts.

(** ** Level data *)

(** The JSON of a level, with the fields and the field types that
    [convert_level] reads: [car["pos"]] is a two-element array, read as a
    pair.  A level with a field missing or of another type is not a value
    of these records. *)
Record Car : Type := mkCar {
  car_type : string;
  car_pos : Z * Z;
  car_direction : string
}.

Record Level : Type := mkLevel {
  board : list (list Z);
  mods : list (list Z);
  mod_nums : list (list Z);
  cars : list Car;
  tracks : Z
}.

(** The lists the converter collects, before they are written out. *)
Record Dzn : Type := mkDzn {
  dzn_W : nat;
  dzn_H : nat;
  dzn_tracks : Z;
  dzn_target : Z * Z;
  dzn_trains : list (Z * Z * string);
  dzn_decoys : list (Z * Z * string);
  dzn_init_pos : list (Z * Z * string);
  dzn_tunnel_pairs : list (Z * Z * string * Z * Z * string);
  dzn_gates : list (Z * Z * Z * string);
  dzn_activations : list (Z * Z * Z);
  dzn_dswitches : list (Z * Z * Z);
  dzn_stations : list (Z * Z * Z)
}.

(** [r + 1] for an index [r] of [enumerate] *)
Definition one_based (i : nat) : Z := Z.of_nat i + 1.

(** ** convert_level *)

(** *** Find target cell *)

(** The inner loop: it stops at the first [val == 3]. *)
Fixpoint find_target_row (r : nat) (cs : list (nat * Z)) : option (Z * Z) :=
  match cs with
  | [] => None
  | (c, val) :: cs' =>
      if val =? 3 then Some (one_based r, one_based c)
      else find_target_row r cs'
  end.

(** The outer loop: [if target: break] after each row. *)
Fixpoint find_target_rows (rs : list (nat * list Z)) : option (Z * Z) :=
  match rs with
  | [] => None
  | (r, row) :: rs' =>
      match find_target_row r (enumerate row) with
      | Some target => Some target
      | None => find_target_rows rs'
      end
  end.

Definition find_target (board : list (list Z)) : option (Z * Z) :=
  find_target_rows (enumerate board).

Definition no_target_message (level_name : string) : string :=
  "No target found for level " +:+ level_name.

(** *** Collect train and decoy information *)

Definition car_step (st : list (Z * Z * string) * list (Z * Z * string))
    (car : Car) : result (list (Z * Z * string) * list (Z * Z * string)) :=
  let '(trains, decoys) := st in
  if String.eqb (car_type car) "NORMAL" then
    let '(r, c) := car_pos car in
    let* direction := DIRECTION_MAP_getitem (car_direction car) in
    Ok (trains ++ [(r + 1, c + 1, direction)], decoys)
  else if String.eqb (car_type car) "DECOY" then
    let '(r, c) := car_pos car in
    let* direction := DIRECTION_MAP_getitem (car_direction car) in
    Ok (trains, decoys ++ [(r + 1, c + 1, direction)])
  else Ok (trains, decoys).

Definition collect_cars (cars : list Car)
  : result (list (Z * Z * string) * list (Z * Z * string)) :=
  foldM car_step ([], []) cars.

(** *** Process grid for initial pieces and switches *)

Definition init_step (mods mod_nums : list (list Z)) (r c : nat)
    (board_val : Z) (st : list (Z * Z * string) * list (Z * Z * Z))
  : result (list (Z * Z * string) * list (Z * Z * Z)) :=
  let '(init_pos, dswitches) := st in
  let* mod_val := getitem2 mods r c in
  if mod_val =? MOD_TUNNEL then Ok (init_pos, dswitches)
  else
    match BOARD_TO_TRACK_get board_val with
    | None => Ok (init_pos, dswitches)
    | Some track_type =>
        let is_dswitch := mod_val =? MOD_SWAPPING_TRACK in
        let is_eswitch := mod_val =? MOD_SWITCH_RAIL in
        if (is_dswitch || is_eswitch) && startswith "SWITCH_" track_type then
          let track_type' :=
            if is_dswitch then replace "SWITCH_" "DSWITCH_" track_type
            else replace "SWITCH_" "ESWITCH_" track_type in
          let* mod_num := getitem2 mod_nums r c in
          let dswitches' :=
            if mod_num >? 0
            then dswitches ++ [(one_based r, one_based c, mod_num)]
            else dswitches in
          Ok (init_pos ++ [(one_based r, one_based c, track_type')],
              dswitches')
        else
          Ok (init_pos ++ [(one_based r, one_based c, track_type)],
              dswitches)
    end.

Definition collect_init (lvl : Level)
  : result (list (Z * Z * string) * list (Z * Z * Z)) :=
  for_cells (board lvl) (init_step (mods lvl) (mod_nums lvl)) ([], []).

(** *** Collect and pair tunnels *)

(** An endpoint is [(pos, board_val)]. *)
Definition endpoint : Type := (Z * Z) * Z.

(** [tunnel_endpoints], keys in insertion order. *)
Definition endpoint_dict : Type := list (Z * list endpoint).

(** [d[k].append(x)] for a key that is present. *)
Fixpoint dict_append (k : Z) (x : endpoint) (d : endpoint_dict)
  : endpoint_dict :=
  match d with
  | [] => []
  | (k', xs) :: d' =>
      if decide (k = k') then (k', xs ++ [x]) :: d'
      else (k', xs) :: dict_append k x d'
  end.

(** [if k not in d: d[k] = []], a new key going last. *)
Definition dict_setdefault_empty (k : Z) (d : endpoint_dict) : endpoint_dict :=
  match assoc k d with
  | Some _ => d
  | None => d ++ [(k, [])]
  end.

Definition tunnel_step (mods mod_nums : list (list Z)) (r c : nat)
    (board_val : Z) (tunnel_endpoints : endpoint_dict) : result endpoint_dict :=
  let* mod_val := getitem2 mods r c in
  if (mod_val =? MOD_TUNNEL) && TUNNEL_DIR_contains board_val then
    let* tunnel_num := getitem2 mod_nums r c in
    let pos := (one_based r, one_based c) in
    Ok (dict_append tunnel_num (pos, board_val)
          (dict_setdefault_empty tunnel_num tunnel_endpoints))
  else Ok tunnel_endpoints.

Definition collect_tunnel_endpoints (lvl : Level) : result endpoint_dict :=
  for_cells (board lvl) (tunnel_step (mods lvl) (mod_nums lvl)) [].

(** [sorted(tunnel_endpoints.keys())] *)
Definition sorted_keys (d : endpoint_dict) : list Z :=
  merge_sort Z.le (d.*1).

(** [tunnel_endpoints[tunnel_num]] *)
Definition dict_getitem (d : endpoint_dict) (k : Z) : result (list endpoint) :=
  match assoc k d with
  | Some xs => Ok xs
  | None => Raise (KeyErrorInt k)
  end.

(** The body of [if len(endpoints) == 2:]; other lengths append nothing. *)
Definition pair_endpoints (endpoints : list endpoint)
  : result (list (Z * Z * string * Z * Z * string)) :=
  match endpoints with
  | [((r1, c1), val1); ((r2, c2), val2)] =>
      let* exit_dir_A := TUNNEL_DIR_getitem val1 in
      let* exit_dir_B := TUNNEL_DIR_getitem val2 in
      Ok [(r1, c1, exit_dir_A, r2, c2, exit_dir_B)]
  | _ => Ok []
  end.

Definition pair_step (d : endpoint_dict)
    (tunnel_pairs : list (Z * Z * string * Z * Z * string)) (tunnel_num : Z)
  : result (list (Z * Z * string * Z * Z * string)) :=
  let* endpoints := dict_getitem d tunnel_num in
  let* new := pair_endpoints endpoints in
  Ok (tunnel_pairs ++ new).

Definition pair_tunnels (d : endpoint_dict)
  : result (list (Z * Z * string * Z * Z * string)) :=
  foldM (pair_step d) [] (sorted_keys d).

Definition collect_tunnel_pairs (lvl : Level)
  : result (list (Z * Z * string * Z * Z * string)) :=
  let* tunnel_endpoints := collect_tunnel_endpoints lvl in
  pair_tunnels tunnel_endpoints.

(** *** Collect gates and activations *)

(** [str(b).lower()] *)
Definition str_lower_of_bool (b : bool) : string :=
  if b then "true" else "false".

Definition gate_step (mod_nums : list (list Z)) (r c : nat) (mod_val : Z)
    (st : list (Z * Z * Z * string) * list (Z * Z * Z))
  : result (list (Z * Z * Z * string) * list (Z * Z * Z)) :=
  let '(gates, activations) := st in
  let* mod_num := getitem2 mod_nums r c in
  if (mod_val =? MOD_CLOSED_GATE) || (mod_val =? MOD_OPEN_GATE) then
    let is_open := str_lower_of_bool (mod_val =? MOD_OPEN_GATE) in
    Ok (gates ++ [(one_based r, one_based c, mod_num, is_open)], activations)
  else if (mod_val =? MOD_SWITCH) && (mod_num >? 0) then
    Ok (gates, activations ++ [(one_based r, one_based c, mod_num)])
  else Ok (gates, activations).

Definition collect_gates (lvl : Level)
  : result (list (Z * Z * Z * string) * list (Z * Z * Z)) :=
  for_cells (mods lvl) (gate_step (mod_nums lvl)) ([], []).

(** *** Collect stations *)

Definition station_step (mod_nums : list (list Z)) (r c : nat) (mod_val : Z)
    (stations : list (Z * Z * Z)) : result (list (Z * Z * Z)) :=
  if mod_val =? MOD_STATION then
    let* mod_num := getitem2 mod_nums r c in
    let minizinc_train_id := mod_num + 1 in
    Ok (stations ++ [(one_based r, one_based c, minizinc_train_id)])
  else Ok stations.

Definition collect_stations (lvl : Level) : result (list (Z * Z * Z)) :=
  for_cells (mods lvl) (station_step (mod_nums lvl)) [].

(** *** Assemble the .dzn content *)

Definition nl : string := String (ascii_of_nat 10) EmptyString.

Definition fmt_triple (t : Z * Z * string) : string :=
  let '(r, c, d) := t in
  "(" +:+ str_of_int r +:+ "," +:+ str_of_int c +:+ "," +:+ d +:+ ")".

Definition fmt_triple_int (t : Z * Z * Z) : string :=
  let '(r, c, num) := t in
  "(" +:+ str_of_int r +:+ "," +:+ str_of_int c +:+ ","
      +:+ str_of_int num +:+ ")".

Definition fmt_gate (t : Z * Z * Z * string) : string :=
  let '(r, c, num, is_open) := t in
  "(" +:+ str_of_int r +:+ "," +:+ str_of_int c +:+ ","
      +:+ str_of_int num +:+ "," +:+ is_open +:+ ")".

Definition fmt_tunnel_pair (t : Z * Z * string * Z * Z * string) : string :=
  let '(r1, c1, entry, r2, c2, exit_dir) := t in
  "(" +:+ str_of_int r1 +:+ ", " +:+ str_of_int c1 +:+ ", " +:+ entry
      +:+ ", " +:+ str_of_int r2 +:+ ", " +:+ str_of_int c2 +:+ ", "
      +:+ exit_dir +:+ ")".

(** A list written on one line: [NAME=[a,b];], or [NAME=[];]. *)
Definition inline_decl {A} (name : string) (fmt : A → string) (l : list A)
  : list string :=
  match l with
  | [] => [name +:+ "=[];"]
  | _ => [name +:+ "=[" +:+ join "," (fmt <$> l) +:+ "];"]
  end.

(** A list written one element per line, each line [indent ++ elt ++ ","]. *)
Definition block_decl {A} (name indent : string) (fmt : A → string)
    (l : list A) : list string :=
  match l with
  | [] => [name +:+ "=[];"]
  | _ => [name +:+ "=["]
           ++ ((fun x => indent +:+ fmt x +:+ ",") <$> l)
           ++ ["];"]
  end.

Definition dzn_lines (d : Dzn) : list string :=
  [ "W=" +:+ pretty (dzn_W d) +:+ ";";
    "H=" +:+ pretty (dzn_H d) +:+ ";";
    "";
    "MAX_TIME=W*H;";
    "MAX_TRACKS=" +:+ str_of_int (dzn_tracks d) +:+ ";";
    "";
    "TARGET=(" +:+ str_of_int (dzn_target d).1 +:+ ","
               +:+ str_of_int (dzn_target d).2 +:+ ");";
    "" ]
  ++ inline_decl "TRAINS" fmt_triple (dzn_trains d)
  ++ inline_decl "DECOYS" fmt_triple (dzn_decoys d)
  ++ [ "" ]
  ++ block_decl "INIT_POS" "" fmt_triple (dzn_init_pos d)
  ++ block_decl "TUNNEL_PAIRS" "  " fmt_tunnel_pair (dzn_tunnel_pairs d)
  ++ [ "" ]
  ++ block_decl "GATES" "" fmt_gate (dzn_gates d)
  ++ block_decl "ACTIVATIONS" "" fmt_triple_int (dzn_activations d)
  ++ [ "" ]
  ++ block_decl "DSWITCHES" "" fmt_triple_int (dzn_dswitches d)
  ++ block_decl "STATIONS" "  " fmt_triple_int (dzn_stations d).

Definition render (d : Dzn) : string := join nl (dzn_lines d) +:+ nl.

(** *** The whole conversion *)

(** Everything [convert_level] computes before it formats the text, in the
    order the source computes it. *)
Definition collect_level (level_name : string) (lvl : Level) : result Dzn :=
  let H := length (board lvl) in
  let W := match board lvl with
           | row0 :: _ => length row0
           | [] => O
           end in
  let* target :=
    match find_target (board lvl) with
    | Some t => Ok t
    | None => Raise (ValueError (no_target_message level_name))
    end in
  let* (trains, decoys) := collect_cars (cars lvl) in
  let* (init_pos, dswitches) := collect_init lvl in
  let* tunnel_pairs := collect_tunnel_pairs lvl in
  let* (gates, activations) := collect_gates lvl in
  let* stations := collect_stations lvl in
  Ok {| dzn_W := W; dzn_H := H; dzn_tracks := tracks lvl;
        dzn_target := target;
        dzn_trains := trains; dzn_decoys := decoys;
        dzn_init_pos := init_pos; dzn_tunnel_pairs := tunnel_pairs;
        dzn_gates := gates; dzn_activations := activations;
        dzn_dswitches := dswitches; dzn_stations := stations |}.

Definition convert_level (level_name : string) (lvl : Level) : result string :=
  let* d := collect_level level_name lvl in Ok (render d).

(** ** main: the batch loop *)

(** A path is the list of its components. *)
Definition path : Type := list string.

Record Args : Type := mkArgs {
  force : bool;
  output_dir : string;
  level_prefix : option string
}.

(** What the loop of [main] reads and changes: the files and directories
    under the output directory, the two output streams and the three
    counters.  A line [Error converting {level_name}: {e}] on the error
    stream is kept as the pair of the level name and the exception. *)
Record Run : Type := mkRun {
  files : gmap path string;
  dirs : gset path;
  stdout : list string;
  stderr : list (string * exn);
  converted : nat;
  skipped_prefix : nat;
  skipped_existing : nat
}.

(** [level_name.split("-")[0]] *)
Fixpoint before_dash (s : string) : string :=
  match s with
  | EmptyString => EmptyString
  | String a s' =>
      if Ascii.eqb a "-" then EmptyString else String a (before_dash s')
  end.

(** [args.level_prefix and not level_name.startswith(args.level_prefix)] *)
Definition prefix_mismatch (a : Args) (level_name : string) : bool :=
  match level_prefix a with
  | None => false
  | Some p =>
      negb (String.eqb p "") && negb (startswith p level_name)
  end.

Definition output_dir_of (a : Args) (level_name : string) : path :=
  [output_dir a; before_dash level_name].

Definition output_path_of (a : Args) (level_name : string) : path :=
  output_dir_of a level_name ++ [level_name +:+ ".dzn"].

Definition progress_line (n : nat) : string :=
  "  Converted " +:+ pretty n +:+ " levels...".

(** One iteration of [for level_name, level_data in sorted(levels.items())]. *)
Definition level_step (a : Args) (st : Run) (item : string * Level) : Run :=
  let '(level_name, level_data) := item in
  if startswith "#" level_name then st
  else if prefix_mismatch a level_name then
    {| files := files st; dirs := dirs st; stdout := stdout st;
       stderr := stderr st; converted := converted st;
       skipped_prefix := S (skipped_prefix st);
       skipped_existing := skipped_existing st |}
  else
    let dirs' := {[ output_dir_of a level_name ]} ∪ dirs st in
    let output_path := output_path_of a level_name in
    if negb (force a) && bool_decide (is_Some (files st !! output_path)) then
      {| files := files st; dirs := dirs'; stdout := stdout st;
         stderr := stderr st; converted := converted st;
         skipped_prefix := skipped_prefix st;
         skipped_existing := S (skipped_existing st) |}
    else
      match convert_level level_name level_data with
      | Ok dzn_content =>
          let n := S (converted st) in
          {| files := <[ output_path := dzn_content ]> (files st);
             dirs := dirs';
             stdout := if (n mod 10 =? 0)%nat
                       then stdout st ++ [progress_line n] else stdout st;
             stderr := stderr st; converted := n;
             skipped_prefix := skipped_prefix st;
             skipped_existing := skipped_existing st |}
      | Raise e =>
          {| files := files st; dirs := dirs'; stdout := stdout st;
             stderr := stderr st ++ [(level_name, e)];
             converted := converted st;
             skipped_prefix := skipped_prefix st;
             skipped_existing := skipped_existing st |}
      end.

(** [sorted(levels.items())]: the names of a [dict] are distinct, so the
    order is that of the names. *)
Definition item_le (x y : string * Level) : Prop := String.le x.1 y.1.

Definition sorted_items (levels : list (string * Level))
  : list (string * Level) :=
  merge_sort item_le levels.

Definition main_loop (a : Args) (levels : list (string * Level)) (st : Run)
  : Run :=
  fold_left (level_step a) (sorted_items levels) st.

(** ** Definitions used to state the properties *)

(** The value of a cell, when the grid has that cell. *)
Definition cell (grid : list (list Z)) (r c : nat) : option Z :=
  match grid !! r with
  | Some row => row !! c
  | None => None
  end.

(** The cells of a grid in the order the nested loops visit them. *)
Definition row_cells (rrow : nat * list Z) : list (nat * nat * Z) :=
  (fun cv : nat * Z => (rrow.1, cv.1, cv.2)) <$> enumerate rrow.2.

Definition cells (grid : list (list Z)) : list (nat * nat * Z) :=
  enumerate grid ≫= row_cells.


(** Cell [(r, c)] comes no later than cell [(r', c')] in the scan: rows top
    to bottom and, within a row, columns left to right. *)
Definition scanned_before_or_at (r c r' c' : nat) : Prop :=
  (r < r')%nat ∨ (r = r' ∧ (c ≤ c')%nat).

(** The line of the output that carries the target. *)
Definition target_line (t : Z * Z) : string :=
  "TARGET=(" +:+ str_of_int t.1 +:+ "," +:+ str_of_int t.2 +:+ ");".

(** The direction strings the direction table has an entry for. *)
Definition known_directions : list string := ["RIGHT"; "LEFT"; "UP"; "DOWN"].

(** The direction translation in the words of the specification: [UP]
    becomes [TOP], the other three directions stay as they are. *)
Definition spec_translate_direction (d : string) : string :=
  if decide (d = "UP") then "TOP" else d.

(** The record of a car in the words of the specification. *)
Definition spec_car_record (car : Car) : Z * Z * string :=
  ((car_pos car).1 + 1, (car_pos car).2 + 1,
   spec_translate_direction (car_direction car)).

Definition is_normal (car : Car) : Prop := car_type car = "NORMAL".
Definition is_decoy (car : Car) : Prop := car_type car = "DECOY".

Global Instance is_normal_dec car : Decision (is_normal car).
Proof. unfold is_normal. apply _. Defined.
Global Instance is_decoy_dec car : Decision (is_decoy car).
Proof. unfold is_decoy. apply _. Defined.

(** A car the converter looks the direction of up, with a direction the
    table has. *)
Definition car_direction_ok (car : Car) : Prop :=
  is_normal car ∨ is_decoy car → car_direction car ∈ known_directions.

Global Instance car_direction_ok_dec car : Decision (car_direction_ok car).
Proof. unfold car_direction_ok. apply _. Defined.

(** [main] reaches the call of [convert_level] for this level: the name is
    not commented out, the prefix filter lets it through, and either
    [--force] is given or the output file does not exist yet. *)
Definition conversion_attempted (a : Args) (st : Run) (level_name : string)
  : Prop :=
  startswith "#" level_name = false
  ∧ prefix_mismatch a level_name = false
  ∧ (force a = true ∨ files st !! output_path_of a level_name = None).

(** A loop body that only appends to two lists what [out] says the
    element contributes. *)
Definition emit {X A B} (out : X → result (list A * list B))
    (st : list A * list B) (x : X) : result (list A * list B) :=
  let* o := out x in Ok (st.1 ++ o.1, st.2 ++ o.2).

(** What one cell contributes to [init_pos] and to [dswitches]: the body of
    the placement loop, without the lists it appends to. *)
Definition init_out (mods mod_nums : list (list Z)) (x : nat * nat * Z)
  : result (list (Z * Z * string) * list (Z * Z * Z)) :=
  let '(r, c, board_val) := x in
  let* mod_val := getitem2 mods r c in
  if mod_val =? MOD_TUNNEL then Ok ([], [])
  else
    match BOARD_TO_TRACK_get board_val with
    | None => Ok ([], [])
    | Some track_type =>
        let is_dswitch := mod_val =? MOD_SWAPPING_TRACK in
        let is_eswitch := mod_val =? MOD_SWITCH_RAIL in
        if (is_dswitch || is_eswitch) && startswith "SWITCH_" track_type then
          let* mod_num := getitem2 mod_nums r c in
          Ok ([(one_based r, one_based c,
                if is_dswitch then replace "SWITCH_" "DSWITCH_" track_type
                else replace "SWITCH_" "ESWITCH_" track_type)],
              if mod_num >? 0 then [(one_based r, one_based c, mod_num)]
              else [])
        else Ok ([(one_based r, one_based c, track_type)], [])
    end.

(** The prefix a three-way switch gets under a toggling modifier. *)
Definition toggled_prefix (mod_val : Z) : string :=
  if mod_val =? MOD_SWAPPING_TRACK then "DSWITCH_" else "ESWITCH_".

(** The endpoint a cell is for the tunnel group [id], in the words of the
    specification: the modifier is the tunnel code, the board code is a
    known tunnel-orientation code and the group number is [id]. *)
Definition spec_endpoint (lvl : Level) (id : Z) (x : nat * nat * Z)
  : option endpoint :=
  let '(r, c, board_val) := x in
  match cell (mods lvl) r c, cell (mod_nums lvl) r c with
  | Some mod_val, Some mod_num =>
      if (mod_val =? MOD_TUNNEL) && TUNNEL_DIR_contains board_val
         && (mod_num =? id)
      then Some ((one_based r, one_based c), board_val)
      else None
  | _, _ => None
  end.

(** The endpoints of the tunnel group [id], in row-major order. *)
Definition spec_group (lvl : Level) (id : Z) : list endpoint :=
  omap (spec_endpoint lvl id) (cells (board lvl)).

(** [tunnel_endpoints.get(k, [])] *)
Definition lookup_or_nil (k : Z) (d : endpoint_dict) : list endpoint :=
  default [] (assoc k d).

(** The dictionary holds, for every group, the endpoints among the cells
    [xs] scanned so far, and has no key without an endpoint. *)
Definition dict_inv (lvl : Level) (xs : list (nat * nat * Z))
    (d : endpoint_dict) : Prop :=
  NoDup d.*1
  ∧ (∀ k ys, assoc k d = Some ys → ys ≠ [])
  ∧ (∀ k, lookup_or_nil k d = omap (spec_endpoint lvl k) xs).

(** The record the specification describes for a group of two: each
    mouth with the exit direction of the other mouth's board code. *)
Definition spec_swapped_record_emitted (lvl : Level) : Prop :=
  ∀ id r1 c1 val1 r2 c2 val2 dir1 dir2 tunnel_pairs,
    spec_group lvl id = [((r1, c1), val1); ((r2, c2), val2)] →
    assoc val1 TUNNEL_DIR = Some dir1 →
    assoc val2 TUNNEL_DIR = Some dir2 →
    collect_tunnel_pairs lvl = Ok tunnel_pairs →
    (r1, c1, dir2, r2, c2, dir1) ∈ tunnel_pairs.

(** What a tunnel group contributes to [tunnel_pairs]. *)
Definition group_records (lvl : Level) (id : Z)
  : list (Z * Z * string * Z * Z * string) :=
  match pair_endpoints (spec_group lvl id) with
  | Ok recs => recs
  | Raise _ => []
  end.

(** Two grids with the same number of rows and, row by row, the same
    number of columns. *)
Definition same_shape (g1 g2 : list (list Z)) : Prop :=
  Forall2 (fun row1 row2 : list Z => length row1 = length row2) g1 g2.

(** A level as the specification describes its input: the three grids have
    matching shape, and every train or decoy faces one of the four
    directions. *)
Definition well_formed (lvl : Level) : Prop :=
  same_shape (board lvl) (mods lvl)
  ∧ same_shape (board lvl) (mod_nums lvl)
  ∧ Forall car_direction_ok (cars lvl).

Global Instance well_formed_dec lvl : Decision (well_formed lvl).
Proof. unfold well_formed, same_shape. apply _. Defined.

(** No cell of the grid holds the code 3 of the ending track. *)
Definition no_target_cell (grid : list (list Z)) : Prop :=
  ∀ r c, cell grid r c ≠ Some 3.

(** A level that exercises every pass: two tunnel groups, toggled
    switches with and without a group number, a gate, an unmapped board
    code and a car of an unknown kind. *)
Definition sample_level : Level :=
  {| board := [[17; 18; 3]; [9; 9; 20]; [20; 11; 99]];
     mods := [[2; 2; 0]; [5; 7; 2]; [2; 5; 3]];
     mod_nums := [[1; 1; 0]; [2; 0; 4]; [4; -1; 7]];
     cars := [mkCar "NORMAL" (0, 0) "UP"; mkCar "DECOY" (1, 2) "LEFT";
              mkCar "OTHER" (1, 1) "zzz"];
     tracks := 3 |}.

(** ** Definitions used to state further properties *)

(** A loop body that only appends to one list what [out] says the element
    contributes. *)
Definition emit1 {X A} (out : X → result (list A)) (st : list A) (x : X)
  : result (list A) :=
  let* o := out x in Ok (st ++ o).

(** What one cell of [mods] contributes to [gates] and to [activations]. *)
Definition gate_out (mod_nums : list (list Z)) (x : nat * nat * Z)
  : result (list (Z * Z * Z * string) * list (Z * Z * Z)) :=
  let '(r, c, mod_val) := x in
  let* mod_num := getitem2 mod_nums r c in
  if (mod_val =? MOD_CLOSED_GATE) || (mod_val =? MOD_OPEN_GATE) then
    Ok ([(one_based r, one_based c, mod_num,
          str_lower_of_bool (mod_val =? MOD_OPEN_GATE))], [])
  else if (mod_val =? MOD_SWITCH) && (mod_num >? 0) then
    Ok ([], [(one_based r, one_based c, mod_num)])
  else Ok ([], []).

(** What one cell of [mods] contributes to [stations]. *)
Definition station_out (mod_nums : list (list Z)) (x : nat * nat * Z)
  : result (list (Z * Z * Z)) :=
  let '(r, c, mod_val) := x in
  if mod_val =? MOD_STATION then
    let* mod_num := getitem2 mod_nums r c in
    Ok [(one_based r, one_based c, mod_num + 1)]
  else Ok [].

(** Every cell of [g1] is a cell of [g2]. *)
Definition covers (g1 g2 : list (list Z)) : Prop :=
  ∀ r c, is_Some (cell g1 r c) → is_Some (cell g2 r c).

(** The placement loop rewrites the token of this cell: the modifier is a
    toggling one and the token is a three-way switch. *)
Definition is_toggled_switch (mod_val : Z) (track_type : string) : bool :=
  ((mod_val =? MOD_SWAPPING_TRACK) || (mod_val =? MOD_SWITCH_RAIL))
  && startswith "SWITCH_" track_type.

(** The levels of a batch that are not commented out. *)
Definition live_levels (levels : list (string * Level))
  : list (string * Level) :=
  filter (fun item : string * Level => startswith "#" item.1 = false) levels.

(** The state after a level that [main] skips because of the prefix. *)
Definition after_prefix_skip (st : Run) : Run :=
  {| files := files st; dirs := dirs st; stdout := stdout st;
     stderr := stderr st; converted := converted st;
     skipped_prefix := S (skipped_prefix st);
     skipped_existing := skipped_existing st |}.

(** The state after a level that [main] skips because its file exists. *)
Definition after_existing_skip (a : Args) (st : Run) (level_name : string)
  : Run :=
  {| files := files st;
     dirs := {[ output_dir_of a level_name ]} ∪ dirs st;
     stdout := stdout st; stderr := stderr st; converted := converted st;
     skipped_prefix := skipped_prefix st;
     skipped_existing := S (skipped_existing st) |}.

(** The state after a level that converted to [dzn_content]. *)
Definition after_conversion (a : Args) (st : Run) (level_name : string)
    (dzn_content : string) : Run :=
  {| files := <[ output_path_of a level_name := dzn_content ]> (files st);
     dirs := {[ output_dir_of a level_name ]} ∪ dirs st;
     stdout := if (S (converted st) mod 10 =? 0)%nat
               then stdout st ++ [progress_line (S (converted st))]
               else stdout st;
     stderr := stderr st; converted := S (converted st);
     skipped_prefix := skipped_prefix st;
     skipped_existing := skipped_existing st |}.

(** The state after a level whose conversion raised [e]. *)
Definition after_failure (a : Args) (st : Run) (level_name : string)
    (e : exn) : Run :=
  {| files := files st;
     dirs := {[ output_dir_of a level_name ]} ∪ dirs st;
     stdout := stdout st;
     stderr := stderr st ++ [(level_name, e)];
     converted := converted st;
     skipped_prefix := skipped_prefix st;
     skipped_existing := skipped_existing st |}.

(** The five ways one iteration of the loop of [main] can go. *)
Inductive step_outcome (a : Args) (st : Run) (level_name : string)
    (lvl : Level) : Run → Prop :=
  | step_commented :
      startswith "#" level_name = true →
      step_outcome a st level_name lvl st
  | step_prefix_skip :
      startswith "#" level_name = false →
      prefix_mismatch a level_name = true →
      step_outcome a st level_name lvl (after_prefix_skip st)
  | step_existing_skip :
      startswith "#" level_name = false →
      prefix_mismatch a level_name = false →
      force a = false →
      is_Some (files st !! output_path_of a level_name) →
      step_outcome a st level_name lvl (after_existing_skip a st level_name)
  | step_converted dzn_content :
      conversion_attempted a st level_name →
      convert_level level_name lvl = Ok dzn_content →
      step_outcome a st level_name lvl
        (after_conversion a st level_name dzn_content)
  | step_failed e :
      conversion_attempted a st level_name →
      convert_level level_name lvl = Raise e →
      step_outcome a st level_name lvl (after_failure a st level_name e).

(** The levels [main] has dealt with so far, as its counters and its error
    stream tell. *)
Definition tally (st : Run) : nat :=
  (converted st + skipped_prefix st + skipped_existing st
   + length (stderr st))%nat.

(** The name has a dash. *)
Fixpoint has_dash (s : string) : bool :=
  match s with
  | EmptyString => false
  | String a s' => Ascii.eqb a "-" || has_dash s'
  end.

(** Position [p] comes before position [q] in row-major order. *)
Definition pos_lt (p q : Z * Z) : Prop :=
  p.1 < q.1 ∨ (p.1 = q.1 ∧ p.2 < q.2).

(** The one-based position of a scanned cell. *)
Definition cell_pos (x : nat * nat * Z) : Z * Z :=
  (one_based x.1.1, one_based x.1.2).

(** A list of records, each starting with its position, goes through the
    grid in row-major order and has at most one record for a position. *)
Definition in_scan_order {A} (pos : A → Z * Z) (l : list A) : Prop :=
  StronglySorted (fun e1 e2 => pos_lt (pos e1) (pos e2)) l.

(** The error of a level with an unknown car direction as the
    specification words it: the conversion raises the failed lookup in the
    direction table. *)
Definition spec_unknown_direction_is_key_error (level_name : string)
    (lvl : Level) : Prop :=
  ∀ car,
    car ∈ cars lvl →
    is_normal car ∨ is_decoy car →
    car_direction car ∉ known_directions →
    ∃ dir, convert_level level_name lvl = Raise (KeyError dir).

(** ** The loop of main when a file-system call can raise

    [level_step] is the loop on a file system whose calls all return.  The
    [try] block of [main] also encloses [mkdir], [exists] and
    [write_text], and its [except Exception] reports what they raise.
    Below, the loop is given what each of the three calls of an iteration
    returns or raises, and it records the calls it makes, each with its
    arguments and its outcome.  A path argument is written as the operands
    of pathlib's [/], left to right; which directories and files pathlib
    and the operating system make of them is not modelled.  Printing is
    taken to succeed. *)

(** What the [except] clause reports: an exception of [convert_level], or
    one of a file-system call, kept as its text. *)
Inductive loop_exn : Type :=
  | FromConversion (e : exn)
  | FromFileSystem (msg : string).

(** A call with its outcome: [raised] is the text of the exception, if
    any; [answer] is what [exists] returned, or the text of what it
    raised. *)
Inductive fs_call : Type :=
  | Mkdir (p : path) (raised : option string)
  | Exists (p : path) (answer : bool + string)
  | WriteText (p : path) (content : string) (raised : option string).

(** What the file system does with the calls of one iteration. *)
Record Answers : Type := mkAnswers {
  mkdir_raises : option string;
  exists_answer : bool + string;
  write_text_raises : option string
}.

Record RunIO : Type := mkRunIO {
  calls : list fs_call;
  io_stdout : list string;
  io_stderr : list (string * loop_exn);
  io_converted : nat;
  io_skipped_prefix : nat;
  io_skipped_existing : nat
}.

Definition with_call (c : fs_call) (st : RunIO) : RunIO :=
  {| calls := calls st ++ [c]; io_stdout := io_stdout st;
     io_stderr := io_stderr st; io_converted := io_converted st;
     io_skipped_prefix := io_skipped_prefix st;
     io_skipped_existing := io_skipped_existing st |}.

(** [print(f"Error converting {level_name}: {e}", file=sys.stderr)] *)
Definition with_error (level_name : string) (err : loop_exn) (st : RunIO)
  : RunIO :=
  {| calls := calls st; io_stdout := io_stdout st;
     io_stderr := io_stderr st ++ [(level_name, err)];
     io_converted := io_converted st;
     io_skipped_prefix := io_skipped_prefix st;
     io_skipped_existing := io_skipped_existing st |}.

(** [skipped_prefix += 1] *)
Definition with_prefix_skip (st : RunIO) : RunIO :=
  {| calls := calls st; io_stdout := io_stdout st;
     io_stderr := io_stderr st; io_converted := io_converted st;
     io_skipped_prefix := S (io_skipped_prefix st);
     io_skipped_existing := io_skipped_existing st |}.

(** [skipped_existing += 1] *)
Definition with_existing_skip (st : RunIO) : RunIO :=
  {| calls := calls st; io_stdout := io_stdout st;
     io_stderr := io_stderr st; io_converted := io_converted st;
     io_skipped_prefix := io_skipped_prefix st;
     io_skipped_existing := S (io_skipped_existing st) |}.

(** [converted += 1] and the progress line. *)
Definition with_conversion (st : RunIO) : RunIO :=
  let n := S (io_converted st) in
  {| calls := calls st;
     io_stdout := if (0 <? n)%nat && (n mod 10 =? 0)%nat
                  then io_stdout st ++ [progress_line n] else io_stdout st;
     io_stderr := io_stderr st; io_converted := n;
     io_skipped_prefix := io_skipped_prefix st;
     io_skipped_existing := io_skipped_existing st |}.

(** [dzn_content = convert_level(...)], [output_path.write_text(...)] and
    what follows. *)
Definition convert_and_write (a : Args) (ans : Answers) (st : RunIO)
    (level_name : string) (level_data : Level) : RunIO :=
  match convert_level level_name level_data with
  | Raise e => with_error level_name (FromConversion e) st
  | Ok dzn_content =>
      let output_path := output_path_of a level_name in
      match write_text_raises ans with
      | Some msg =>
          with_error level_name (FromFileSystem msg)
            (with_call (WriteText output_path dzn_content (Some msg)) st)
      | None =>
          with_conversion
            (with_call (WriteText output_path dzn_content None) st)
      end
  end.

(** One iteration of the loop.  [exists] is called only without
    [--force], as [not args.force and output_path.exists()] has it. *)
Definition level_step_io (a : Args) (ans : Answers) (st : RunIO)
    (item : string * Level) : RunIO :=
  let '(level_name, level_data) := item in
  if startswith "#" level_name then st
  else if prefix_mismatch a level_name then with_prefix_skip st
  else
    let output_dir := output_dir_of a level_name in
    let output_path := output_path_of a level_name in
    match mkdir_raises ans with
    | Some msg =>
        with_error level_name (FromFileSystem msg)
          (with_call (Mkdir output_dir (Some msg)) st)
    | None =>
        let st1 := with_call (Mkdir output_dir None) st in
        if force a then convert_and_write a ans st1 level_name level_data
        else
          match exists_answer ans with
          | inr msg =>
              with_error level_name (FromFileSystem msg)
                (with_call (Exists output_path (inr msg)) st1)
          | inl true =>
              with_existing_skip
                (with_call (Exists output_path (inl true)) st1)
          | inl false =>
              convert_and_write a ans
                (with_call (Exists output_path (inl false)) st1)
                level_name level_data
          end
    end.

(** The loop over the levels by ascending name; [env i] is what the file
    system does in iteration [i]. *)
Definition main_loop_io (a : Args) (env : nat → Answers)
    (levels : list (string * Level)) (st : RunIO) : RunIO :=
  fold_left
    (fun st (ix : nat * (string * Level)) =>
       level_step_io a (env ix.1) st ix.2)
    (enumerate (sorted_items levels)) st.

(** The text of the exception a call raised, if it raised. *)
Definition call_raised (c : fs_call) : option string :=
  match c with
  | Mkdir _ raised => raised
  | Exists _ (inl _) => None
  | Exists _ (inr msg) => Some msg
  | WriteText _ _ raised => raised
  end.

Definition call_path (c : fs_call) : path :=
  match c with
  | Mkdir p _ => p
  | Exists p _ => p
  | WriteText p _ _ => p
  end.

(** The call is a [write_text] that returned. *)
Definition is_written (c : fs_call) : bool :=
  match c with
  | WriteText _ _ None => true
  | _ => false
  end.

(** A level the loop takes up: not commented out and let through by the
    prefix filter. *)
Definition taken_up (a : Args) (level_name : string) : Prop :=
  startswith "#" level_name = false ∧ prefix_mismatch a level_name = false.


(** A state of [level_step] seen as a state of the loop with calls. *)
Definition same_counters (st : Run) (sio : RunIO) : Prop :=
  io_stdout sio = stdout st
  ∧ io_stderr sio
    = (fun ne : string * exn => (ne.1, FromConversion ne.2)) <$> stderr st
  ∧ io_converted sio = converted st
  ∧ io_skipped_prefix sio = skipped_prefix st
  ∧ io_skipped_existing sio = skipped_existing st.

(** A file system that raises nothing and knows the files written so
    far. *)
Definition ideal_answers (a : Args) (st : Run) (level_name : string)
  : Answers :=
  {| mkdir_raises := None;
     exists_answer :=
       inl (bool_decide (is_Some (files st !! output_path_of a level_name)));
     write_text_raises := None |}.

(** The files after the calls [cs]: every [write_text] that returned left
    its content under its path. *)
Definition apply_writes (cs : list fs_call) (fs : gmap path string)
  : gmap path string :=
  fold_left
    (fun fs c =>
       match c with
       | WriteText p content None => <[ p := content ]> fs
       | _ => fs
       end)
    cs fs.

(** * Properties *)

(** ** The model on concrete inputs *)

Example replace_every_occurrence :
  replace "ab" "x" "abcabab_a" = "xcxx_a"
  ∧ replace "SWITCH_" "ESWITCH_" "SWITCH_T_D_L" = "ESWITCH_T_D_L".
Proof. split; reflexivity. Qed.

Example str_of_int_negative : str_of_int (-120) = "-120" ∧ str_of_int 0 = "0".
Proof. split; by vm_compute. Qed.

Example sample_level_text :
  convert_level "1-2" sample_level
  = Ok (join nl
          [ "W=3;"; "H=3;"; ""; "MAX_TIME=W*H;"; "MAX_TRACKS=3;"; "";
            "TARGET=(1,3);"; ""; "TRAINS=[(1,1,TOP)];";
            "DECOYS=[(2,3,LEFT)];"; "";
            "INIT_POS=["; "(1,3,STRAIGHT_RL),"; "(2,1,DSWITCH_L_R_D),";
            "(2,2,ESWITCH_L_R_D),"; "(3,2,DSWITCH_L_R_D),"; "];";
            "TUNNEL_PAIRS=["; "  (1, 1, LEFT, 1, 2, RIGHT),";
            "  (2, 3, TOP, 3, 1, TOP),"; "];"; "";
            "GATES=["; "(3,3,7,false),"; "];"; "ACTIVATIONS=[];"; "";
            "DSWITCHES=["; "(2,1,2),"; "];"; "STATIONS=[];" ]
        +:+ nl).
Proof. by vm_compute. Qed.

Example ragged_modifier_grid_raises :
  convert_level "1-3" (mkLevel [[3; 1]] [[0]] [[0; 0]] [] 1) = Raise IndexError.
Proof. reflexivity. Qed.

(** ** Loops *)

Section Loops.
Context {S X : Type}.
Implicit Types (body : S → X → result S) (s : S) (xs : list X).

Lemma foldM_app body s xs ys :
  foldM body s (xs ++ ys) = let* s' := foldM body s xs in foldM body s' ys.
Proof.
  revert s. induction xs as [|x xs IH]; intros s; simpl; [done|].
  destruct (body s x); simpl; auto.
Qed.

(** A loop whose body never raises on the elements it visits returns. *)
Lemma foldM_ok body s xs :
  (∀ s x, x ∈ xs → is_ok (body s x) = true) →
  is_ok (foldM body s xs) = true.
Proof.
  revert s. induction xs as [|x xs IH]; intros s Hb; simpl; [done|].
  specialize (Hb s x (list_elem_of_here _ _)) as Hx.
  destruct (body s x) as [s'|e]; simpl in *; [|done].
  apply IH. intros s0 y Hy. apply Hb. by right.
Qed.

(** An exception that leaves the loop was raised by the body. *)
Lemma foldM_raise body s xs e :
  foldM body s xs = Raise e → ∃ s' x, x ∈ xs ∧ body s' x = Raise e.
Proof.
  revert s. induction xs as [|x xs IH]; intros s; simpl; [done|].
  destruct (body s x) as [s'|e'] eqn:Hx; simpl.
  - intros (s0 & y & Hy & Hb)%IH. exists s0, y. split; [by right|done].
  - intros [= ->]. exists s, x. split; [by left|done].
Qed.
End Loops.

Lemma foldM_fmap {S X Y} (g : X → Y) (body : S → Y → result S) s xs :
  foldM body s (g <$> xs) = foldM (fun s x => body s (g x)) s xs.
Proof.
  revert s. induction xs as [|x xs IH]; intros s; simpl; [done|].
  destruct (body s (g x)); simpl; auto.
Qed.

Lemma foldM_ext {S X} (f g : S → X → result S) s xs :
  (∀ s x, f s x = g s x) → foldM f s xs = foldM g s xs.
Proof.
  intros Hfg. revert s. induction xs as [|x xs IH]; intros s; simpl; [done|].
  rewrite Hfg. destruct (g s x); simpl; auto.
Qed.

(** ** Grids *)

Lemma elem_of_enumerate_from {A} (k i : nat) (x : A) (l : list A) :
  (i, x) ∈ enumerate_from k l ↔ ∃ j, i = (k + j)%nat ∧ l !! j = Some x.
Proof.
  revert k. induction l as [|y l IH]; intros k; simpl.
  - split; [by intros ?%elem_of_nil|by intros (j & _ & ?)].
  - rewrite elem_of_cons, IH. split.
    + intros [[= -> ->]|(j & -> & Hj)].
      * exists O. split; [lia|done].
      * exists (Datatypes.S j). split; [lia|done].
    + intros ([|j] & -> & Hj); simpl in Hj.
      * left. injection Hj as ->. f_equal. lia.
      * right. exists j. split; [lia|done].
Qed.

Lemma elem_of_enumerate {A} (i : nat) (x : A) (l : list A) :
  (i, x) ∈ enumerate l ↔ l !! i = Some x.
Proof.
  unfold enumerate. rewrite elem_of_enumerate_from. split.
  - by intros (j & -> & Hj).
  - intros Hi. by exists i.
Qed.

Lemma elem_of_cells grid r c v :
  (r, c, v) ∈ cells grid ↔ cell grid r c = Some v.
Proof.
  unfold cells, cell. rewrite list_elem_of_bind. split.
  - intros ([r' row] & Hin & Hrow). unfold row_cells in Hin. simpl in Hin.
    apply list_elem_of_fmap in Hin as ([c' v'] & [= -> -> ->] & Hcv).
    apply elem_of_enumerate in Hrow, Hcv. by rewrite Hrow.
  - destruct (grid !! r) as [row|] eqn:Hr; [|done]. intros Hc.
    exists (r, row). split; [|by apply elem_of_enumerate].
    unfold row_cells. simpl. apply list_elem_of_fmap.
    exists (c, v). split; [done|by apply elem_of_enumerate].
Qed.

(** The nested loops are one loop over [cells]. *)
Lemma for_cells_cells {S} grid (body : nat → nat → Z → S → result S) s :
  for_cells grid body s
  = foldM (fun s (x : nat * nat * Z) => body x.1.1 x.1.2 x.2 s) s (cells grid).
Proof.
  unfold for_cells, cells. generalize (enumerate grid) as rs. intros rs.
  revert s. induction rs as [|[r row] rs IH]; intros s; simpl; [done|].
  rewrite foldM_app. unfold row_cells at 1. simpl. rewrite foldM_fmap. simpl.
  erewrite (foldM_ext _ (fun s (x : nat * Z) => body r x.1 x.2 s));
    [|by intros ? []].
  destruct (foldM _ s (enumerate row)); simpl; auto.
Qed.

(** ** The target cell *)

(** Equal coordinates, up to arithmetic on the indices. *)
Ltac coords := unfold one_based; f_equal; lia.

Lemma find_target_row_spec r k row :
  match find_target_row r (enumerate_from k row) with
  | Some t =>
      ∃ i, t = (one_based r, one_based (k + i))
           ∧ row !! i = Some 3
           ∧ ∀ j, (j < i)%nat → row !! j ≠ Some 3
  | None => ∀ j, row !! j ≠ Some 3
  end.
Proof.
  revert k. induction row as [|v row IH]; intros k; simpl.
  - by intros j.
  - destruct (Z.eqb_spec v 3) as [->|Hv].
    + exists O. split_and!; [coords|done|intros j ?; lia].
    + specialize (IH (Datatypes.S k)).
      destruct (find_target_row r (enumerate_from (Datatypes.S k) row)).
      * destruct IH as (i & -> & Hi & Hlt). exists (Datatypes.S i).
        split_and!; [coords|done|].
        intros [|j] Hj; simpl; [congruence|apply Hlt; lia].
      * intros [|j]; simpl; [congruence|apply IH].
Qed.

Lemma find_target_rows_spec k grid :
  match find_target_rows (enumerate_from k grid) with
  | Some t =>
      ∃ r c, t = (one_based (k + r), one_based c)
             ∧ cell grid r c = Some 3
             ∧ ∀ r' c', cell grid r' c' = Some 3 → scanned_before_or_at r c r' c'
  | None => ∀ r c, cell grid r c ≠ Some 3
  end.
Proof.
  revert k. induction grid as [|row grid IH]; intros k; simpl.
  - by intros r c.
  - pose proof (find_target_row_spec k O row) as Hrow.
    fold (enumerate row) in Hrow.
    destruct (find_target_row k (enumerate row)) as [t|].
    + destruct Hrow as (i & -> & Hi & Hlt). exists O, i.
      split_and!; [coords|done|].
      intros [|r'] c' Hc; unfold scanned_before_or_at; [|left; lia].
      right. split; [done|]. destruct (decide (c' < i)%nat); [|lia].
      by destruct (Hlt c').
    + specialize (IH (Datatypes.S k)).
      destruct (find_target_rows (enumerate_from (Datatypes.S k) grid)).
      * destruct IH as (r & c & -> & Hc & Hfirst). exists (Datatypes.S r), c.
        split_and!; [coords|done|].
        intros [|r'] c' Hc'.
        -- by destruct (Hrow c').
        -- destruct (Hfirst r' c' Hc') as [?|[-> ?]];
             [left; lia|right; split; [done|lia]].
      * intros [|r] c; [apply Hrow|apply IH].
Qed.

Lemma find_target_Some grid t :
  find_target grid = Some t →
  ∃ r c, t = (one_based r, one_based c)
         ∧ cell grid r c = Some 3
         ∧ ∀ r' c', cell grid r' c' = Some 3 → scanned_before_or_at r c r' c'.
Proof.
  intros Ht. pose proof (find_target_rows_spec O grid) as H.
  fold (enumerate grid) in H. fold (find_target grid) in H.
  by rewrite Ht in H.
Qed.

Lemma find_target_None grid :
  find_target grid = None ↔ ∀ r c, cell grid r c ≠ Some 3.
Proof.
  pose proof (find_target_rows_spec O grid) as H.
  fold (enumerate grid) in H. fold (find_target grid) in H. split.
  - intros Ht. by rewrite Ht in H.
  - intros Hno. destruct (find_target grid); [|done].
    destruct H as (r & c & _ & Hc & _). by destruct (Hno r c).
Qed.

(** The fields of a record the conversion produced are the results of the
    passes. *)
Lemma collect_level_fields name lvl d :
  collect_level name lvl = Ok d →
  find_target (board lvl) = Some (dzn_target d)
  ∧ collect_cars (cars lvl) = Ok (dzn_trains d, dzn_decoys d)
  ∧ collect_init lvl = Ok (dzn_init_pos d, dzn_dswitches d)
  ∧ collect_tunnel_pairs lvl = Ok (dzn_tunnel_pairs d).
Proof.
  unfold collect_level. destruct (find_target (board lvl)); cbn [bind]; [|done].
  destruct (collect_cars _) as [[??]|]; cbn [bind]; [|done].
  destruct (collect_init _) as [[??]|]; cbn [bind]; [|done].
  destruct (collect_tunnel_pairs _); cbn [bind]; [|done].
  destruct (collect_gates _) as [[??]|]; cbn [bind]; [|done].
  destruct (collect_stations _); cbn [bind]; [|done].
  by intros [= <-].
Qed.

(** C3.  When the board has a cell with code 3, the target is
    [(row + 1, col + 1)] of the first such cell in the scan that goes
    through the rows top to bottom and through each row left to right:
    the cell found has code 3 and no cell with code 3 comes before it.
    Every record the conversion produces carries these coordinates, on
    its [TARGET] line.  If only one cell has code 3, the target is that
    cell. *)
Theorem target_is_first_ending_cell (lvl : Level) (r1 c1 : nat) :
  cell (board lvl) r1 c1 = Some 3 →
  ∃ r c,
    find_target (board lvl) = Some (one_based r, one_based c)
    ∧ cell (board lvl) r c = Some 3
    ∧ (∀ r' c', cell (board lvl) r' c' = Some 3 →
                scanned_before_or_at r c r' c')
    ∧ (∀ name d, collect_level name lvl = Ok d →
         dzn_target d = (Z.of_nat r + 1, Z.of_nat c + 1)
         ∧ dzn_lines d !! 6%nat
           = Some (target_line (Z.of_nat r + 1, Z.of_nat c + 1)))
    ∧ ((∀ r' c', cell (board lvl) r' c' = Some 3 → r' = r1 ∧ c' = c1) →
       r = r1 ∧ c = c1).
Proof.
  intros H1. destruct (find_target (board lvl)) as [t|] eqn:Ht.
  - destruct (find_target_Some _ _ Ht) as (r & c & -> & Hc & Hfirst).
    exists r, c. split_and!; [done..| |by intros Hu; apply Hu].
    intros name d Hd. apply collect_level_fields in Hd as (Hd & _).
    rewrite Ht in Hd. injection Hd as Hd. destruct d; simpl in Hd.
    subst. split; reflexivity.
  - rewrite find_target_None in Ht. by destruct (Ht r1 c1).
Qed.

Lemma target_is_first_ending_cell_witness :
  ∃ r c,
    find_target [[1; 0]; [0; 3]] = Some (one_based r, one_based c)
    ∧ r = 1%nat ∧ c = 1%nat.
Proof.
  destruct (target_is_first_ending_cell
              (mkLevel [[1; 0]; [0; 3]] [[0; 0]; [0; 0]] [[0; 0]; [0; 0]] [] 1)
              1 1 eq_refl)
    as (r & c & Hr & _ & _ & _ & Hu).
  exists r, c. split; [exact Hr|]. apply Hu.
  intros [|[|r']] [|[|c']] H; unfold cell in H; simpl in H;
    try discriminate H; split; reflexivity.
Defined.

(** ** Cars *)

Lemma DIRECTION_MAP_known d :
  d ∈ known_directions →
  DIRECTION_MAP_getitem d = Ok (spec_translate_direction d).
Proof.
  unfold known_directions. rewrite !elem_of_cons, elem_of_nil.
  by intros [->|[->|[->|[->|[]]]]].
Qed.

Lemma DIRECTION_MAP_unknown d :
  d ∉ known_directions → DIRECTION_MAP_getitem d = Raise (KeyError d).
Proof.
  unfold known_directions. rewrite !elem_of_cons, elem_of_nil. intros Hd.
  unfold DIRECTION_MAP_getitem, DIRECTION_MAP. simpl.
  repeat (case_decide; [exfalso; apply Hd; subst; tauto|]). done.
Qed.

Lemma car_type_cases car :
  (String.eqb (car_type car) "NORMAL" = true ∧ is_normal car ∧ ¬ is_decoy car)
  ∨ (String.eqb (car_type car) "NORMAL" = false
     ∧ String.eqb (car_type car) "DECOY" = true
     ∧ ¬ is_normal car ∧ is_decoy car)
  ∨ (String.eqb (car_type car) "NORMAL" = false
     ∧ String.eqb (car_type car) "DECOY" = false
     ∧ ¬ is_normal car ∧ ¬ is_decoy car).
Proof.
  unfold is_normal, is_decoy.
  destruct (String.eqb_spec (car_type car) "NORMAL") as [->|Hn].
  - left. by split_and!.
  - destruct (String.eqb_spec (car_type car) "DECOY") as [->|Hd].
    + right; left. by split_and!.
    + right; right. by split_and!.
Qed.

Lemma car_step_ok car trains decoys :
  car_direction_ok car →
  car_step (trains, decoys) car
  = Ok (trains ++ (spec_car_record <$> filter is_normal [car]),
        decoys ++ (spec_car_record <$> filter is_decoy [car])).
Proof.
  intros Hok. unfold car_step, car_direction_ok, spec_car_record in *.
  destruct car as [ty [r c] dir]; simpl in *.
  rewrite !filter_cons, !filter_nil.
  pose proof (car_type_cases (mkCar ty (r, c) dir)) as Hty. simpl in Hty.
  destruct Hty as [(-> & Hn & Hd)|[(-> & -> & Hn & Hd)|(-> & -> & Hn & Hd)]];
    simpl in *.
  - rewrite (decide_True _ _ Hn), (decide_False _ _ Hd).
    rewrite DIRECTION_MAP_known by auto. simpl. by rewrite app_nil_r.
  - rewrite (decide_False _ _ Hn), (decide_True _ _ Hd).
    rewrite DIRECTION_MAP_known by auto. simpl. by rewrite app_nil_r.
  - rewrite (decide_False _ _ Hn), (decide_False _ _ Hd).
    simpl. by rewrite !app_nil_r.
Qed.

Lemma car_step_raise car st :
  ¬ car_direction_ok car →
  car_step st car = Raise (KeyError (car_direction car)).
Proof.
  intros Hbad. unfold car_direction_ok in Hbad.
  assert ((is_normal car ∨ is_decoy car)
          ∧ car_direction car ∉ known_directions) as [Hk Hd].
  { destruct (decide (is_normal car ∨ is_decoy car)); [|tauto].
    split; [done|]. intros ?. by apply Hbad. }
  unfold car_step. destruct st as [trains decoys].
  destruct car as [ty [r c] dir]; simpl in *.
  rewrite (DIRECTION_MAP_unknown _ Hd).
  pose proof (car_type_cases (mkCar ty (r, c) dir)) as Hty. simpl in Hty.
  destruct Hty as [(-> & _)|[(-> & -> & _)|(_ & _ & Hn & Hdc)]]; simpl in *;
    [done..|tauto].
Qed.

Lemma foldM_car_step_ok cars trains decoys :
  Forall car_direction_ok cars →
  foldM car_step (trains, decoys) cars
  = Ok (trains ++ (spec_car_record <$> filter is_normal cars),
        decoys ++ (spec_car_record <$> filter is_decoy cars)).
Proof.
  intros Hall. revert trains decoys.
  induction Hall as [|car cars Hcar _ IH]; intros trains decoys; cbn [foldM].
  - rewrite !filter_nil. simpl. by rewrite !app_nil_r.
  - rewrite (car_step_ok _ _ _ Hcar). cbn [bind]. rewrite IH.
    rewrite <- !(assoc_L (++)), <- !fmap_app, <- !filter_app. done.
Qed.

Lemma collect_cars_ok cars :
  Forall car_direction_ok cars →
  collect_cars cars
  = Ok (spec_car_record <$> filter is_normal cars,
        spec_car_record <$> filter is_decoy cars).
Proof. intros H. unfold collect_cars. by rewrite foldM_car_step_ok. Qed.

(** The first car whose direction the table lacks stops the loop. *)
Lemma collect_cars_raise pre car post :
  Forall car_direction_ok pre → ¬ car_direction_ok car →
  collect_cars (pre ++ car :: post) = Raise (KeyError (car_direction car)).
Proof.
  intros Hpre Hcar. unfold collect_cars.
  rewrite foldM_app, foldM_car_step_ok by done. cbn [bind foldM].
  by rewrite car_step_raise.
Qed.

Lemma first_bad_car cars :
  ¬ Forall car_direction_ok cars →
  ∃ pre car post,
    cars = pre ++ car :: post
    ∧ Forall car_direction_ok pre ∧ ¬ car_direction_ok car.
Proof.
  induction cars as [|car cars IH]; intros Hbad.
  - by destruct Hbad.
  - destruct (decide (car_direction_ok car)) as [Hok|Hno].
    + destruct IH as (pre & car' & post & -> & Hpre & Hcar').
      { intros Hall. apply Hbad. by constructor. }
      exists (car :: pre), car', post. split_and!; [done| |done].
      by constructor.
    + exists [], car, cars. by split_and!.
Qed.

Lemma collect_cars_is_ok cars :
  is_ok (collect_cars cars) = true ↔ Forall car_direction_ok cars.
Proof.
  split.
  - intros Hok. destruct (decide (Forall car_direction_ok cars)); [done|].
    destruct (first_bad_car cars) as (pre & car & post & -> & Hpre & Hcar);
      [done|].
    by rewrite collect_cars_raise in Hok.
  - intros Hall. by rewrite collect_cars_ok.
Qed.

(** ** Loops that only append *)

Section Emit.
Context {X A B : Type} (out : X → result (list A * list B)).

Lemma foldM_emit xs a b a' b' :
  foldM (emit out) (a, b) xs = Ok (a', b') →
  ∃ os, Forall2 (fun x o => out x = Ok o) xs os
        ∧ a' = a ++ mjoin (fst <$> os)
        ∧ b' = b ++ mjoin (snd <$> os).
Proof.
  revert a b. induction xs as [|x xs IH]; intros a b; cbn [foldM].
  - intros [= <- <-]. exists []. simpl. by rewrite !app_nil_r.
  - unfold emit at 1. destruct (out x) as [[oa ob]|e] eqn:Hx; [|done].
    cbn [bind fst snd]. intros (os & Hos & -> & ->)%IH.
    exists ((oa, ob) :: os). split_and!.
    + by constructor.
    + simpl. by rewrite (assoc_L (++)).
    + simpl. by rewrite (assoc_L (++)).
Qed.

Lemma Forall2_out_elem {C} xs os (sel : list A * list B → list C) e :
  Forall2 (fun x o => out x = Ok o) xs os →
  e ∈ mjoin (sel <$> os) ↔ ∃ x o, x ∈ xs ∧ out x = Ok o ∧ e ∈ sel o.
Proof.
  induction 1 as [|x o xs os Hx _ IH]; simpl.
  - split; [by intros ?%elem_of_nil|by intros (? & ? & ?%elem_of_nil & _)].
  - rewrite elem_of_app, IH. split.
    + intros [He|(x' & o' & Hin & Ho & He)].
      * exists x, o. split_and!; [by left|done..].
      * exists x', o'. split_and!; [by right|done..].
    + intros (x' & o' & [->|Hin]%elem_of_cons & Ho & He).
      * left. rewrite Hx in Ho. by injection Ho as ->.
      * right. by exists x', o'.
Qed.

(** What a loop that starts from two empty lists has collected. *)
Lemma foldM_emit_elem xs a' b' :
  foldM (emit out) ([], []) xs = Ok (a', b') →
  (∀ x, x ∈ xs → ∃ o, out x = Ok o)
  ∧ (∀ e, e ∈ a' ↔ ∃ x o, x ∈ xs ∧ out x = Ok o ∧ e ∈ o.1)
  ∧ (∀ e, e ∈ b' ↔ ∃ x o, x ∈ xs ∧ out x = Ok o ∧ e ∈ o.2).
Proof.
  intros (os & Hos & -> & ->)%foldM_emit. simpl. split_and!.
  - intros x Hx. clear -Hos Hx. induction Hos as [|x' o xs os Ho _ IH].
    + by apply elem_of_nil in Hx.
    + apply elem_of_cons in Hx as [->|Hx]; [by exists o|by apply IH].
  - intros e. by apply (Forall2_out_elem xs os fst).
  - intros e. by apply (Forall2_out_elem xs os snd).
Qed.
End Emit.

(** ** Subscripts *)

Lemma getitem2_cell grid r c :
  getitem2 grid r c
  = match cell grid r c with Some v => Ok v | None => Raise IndexError end.
Proof.
  unfold getitem2, getitem, cell. destruct (grid !! r) as [row|]; simpl; done.
Qed.

Lemma getitem2_Ok grid r c v :
  getitem2 grid r c = Ok v ↔ cell grid r c = Some v.
Proof.
  rewrite getitem2_cell. destruct (cell grid r c); split; congruence.
Qed.

Lemma one_based_inj i j : one_based i = one_based j → i = j.
Proof. unfold one_based. lia. Qed.

Lemma cells_functional grid r c v v' :
  (r, c, v) ∈ cells grid → (r, c, v') ∈ cells grid → v = v'.
Proof. rewrite !elem_of_cells. congruence. Qed.

(** ** Initial pieces and toggled switches *)

Lemma init_step_emit mods mod_nums r c board_val st :
  init_step mods mod_nums r c board_val st
  = emit (init_out mods mod_nums) st (r, c, board_val).
Proof.
  destruct st as [init_pos dswitches]. unfold init_step, emit, init_out.
  destruct (getitem2 mods r c) as [mod_val|]; cbn [bind]; [|done].
  destruct (mod_val =? MOD_TUNNEL); cbn [bind fst snd];
    [by rewrite !app_nil_r|].
  destruct (BOARD_TO_TRACK_get board_val) as [track_type|]; cbn [bind fst snd];
    [|by rewrite !app_nil_r].
  destruct (_ && _); cbn [bind fst snd]; [|by rewrite !app_nil_r].
  destruct (getitem2 mod_nums r c) as [mod_num|]; cbn [bind fst snd]; [|done].
  destruct (mod_num >? 0); [done|by rewrite app_nil_r].
Qed.

Lemma collect_init_emit lvl :
  collect_init lvl
  = foldM (emit (init_out (mods lvl) (mod_nums lvl))) ([], [])
          (cells (board lvl)).
Proof.
  unfold collect_init. rewrite for_cells_cells. apply foldM_ext.
  intros st [[r c] v]. apply init_step_emit.
Qed.

(** Whatever a cell contributes carries the coordinates of that cell. *)
Lemma init_out_coords mods mod_nums r c v o :
  init_out mods mod_nums (r, c, v) = Ok o →
  (∀ e, e ∈ o.1 → e.1 = (one_based r, one_based c))
  ∧ (∀ e, e ∈ o.2 → e.1 = (one_based r, one_based c)).
Proof.
  unfold init_out.
  destruct (getitem2 mods r c) as [mod_val|]; cbn [bind]; [|done].
  destruct (mod_val =? MOD_TUNNEL).
  { intros [= <-]. split; intros e ?%elem_of_nil; done. }
  destruct (BOARD_TO_TRACK_get v) as [track_type|].
  2: { intros [= <-]. split; intros e ?%elem_of_nil; done. }
  destruct (_ && _).
  - destruct (getitem2 mod_nums r c) as [mod_num|]; cbn [bind]; [|done].
    intros [= <-]. cbn [fst snd]. split.
    + by intros e ->%list_elem_of_singleton.
    + destruct (mod_num >? 0); [|by intros e ?%elem_of_nil].
      by intros e ->%list_elem_of_singleton.
  - intros [= <-]. cbn [fst snd]. split.
    + by intros e ->%list_elem_of_singleton.
    + by intros e ?%elem_of_nil.
Qed.

(** The entries of [init_pos] and [dswitches] at the coordinates of a cell
    are the ones that cell contributed. *)
Lemma collect_init_at lvl init dsw r c v :
  collect_init lvl = Ok (init, dsw) →
  cell (board lvl) r c = Some v →
  ∃ o, init_out (mods lvl) (mod_nums lvl) (r, c, v) = Ok o
       ∧ (∀ t, (one_based r, one_based c, t) ∈ init
               ↔ (one_based r, one_based c, t) ∈ o.1)
       ∧ (∀ n, (one_based r, one_based c, n) ∈ dsw
               ↔ (one_based r, one_based c, n) ∈ o.2).
Proof.
  rewrite collect_init_emit. intros (Hok & Hinit & Hdsw)%foldM_emit_elem Hc.
  apply elem_of_cells in Hc. destruct (Hok _ Hc) as [o Ho].
  exists o. split; [done|].
  assert (∀ x o', x ∈ cells (board lvl) →
            init_out (mods lvl) (mod_nums lvl) x = Ok o' →
            ((∃ e, e ∈ o'.1 ∧ e.1 = (one_based r, one_based c))
             ∨ (∃ e, e ∈ o'.2 ∧ e.1 = (one_based r, one_based c))) →
            o' = o) as Hsame.
  { intros [[r' c'] v'] o' Hx Ho' Hat.
    destruct (init_out_coords _ _ _ _ _ _ Ho') as [H1 H2].
    assert (one_based r' = one_based r ∧ one_based c' = one_based c)
      as [->%one_based_inj ->%one_based_inj].
    { destruct Hat as [(e & He & Heq)|(e & He & Heq)];
        [apply H1 in He|apply H2 in He]; rewrite He in Heq;
        by injection Heq. }
    rewrite (cells_functional _ _ _ _ _ Hx Hc) in Ho'. congruence. }
  split.
  - intros t. rewrite Hinit. split.
    + intros (x & o' & Hx & Ho' & He).
      rewrite <- (Hsame x o' Hx Ho'); [done|]. left. by eexists.
    + intros He. by exists (r, c, v), o.
  - intros n. rewrite Hdsw. split.
    + intros (x & o' & Hx & Ho' & He).
      rewrite <- (Hsame x o' Hx Ho'); [done|]. right. by eexists.
    + intros He. by exists (r, c, v), o.
Qed.

(** Every token of the table that starts with [SWITCH_] has that text only
    at its start, so [replace] rewrites the prefix and nothing else. *)
Lemma table_switch_token board_val track_type :
  BOARD_TO_TRACK_get board_val = Some track_type →
  startswith "SWITCH_" track_type = true →
  ∃ rest,
    track_type = "SWITCH_" +:+ rest
    ∧ replace "SWITCH_" "DSWITCH_" track_type = "DSWITCH_" +:+ rest
    ∧ replace "SWITCH_" "ESWITCH_" track_type = "ESWITCH_" +:+ rest.
Proof.
  unfold BOARD_TO_TRACK_get, BOARD_TO_TRACK. cbn [assoc].
  repeat case_decide; intros [= <-]; try discriminate; intros _;
    eexists; split_and!; reflexivity.
Qed.

(** C4.  A cell whose modifier is 5 (swapping track) or 7 (switch rail) and
    whose board code translates to a token that starts with [SWITCH_] is
    placed with that prefix rewritten to [DSWITCH_], respectively
    [ESWITCH_]; that rewritten token is the only entry of the placement
    list at the cell, whatever the group number is.  The toggled-switch
    list has an entry at the cell exactly when the group number is
    positive, and that entry carries the group number. *)
Theorem toggled_switch_cell (lvl : Level) init dsw (r c : nat)
    (board_val mod_val : Z) (track_type : string) :
  collect_init lvl = Ok (init, dsw) →
  cell (board lvl) r c = Some board_val →
  cell (mods lvl) r c = Some mod_val →
  mod_val = MOD_SWAPPING_TRACK ∨ mod_val = MOD_SWITCH_RAIL →
  BOARD_TO_TRACK_get board_val = Some track_type →
  startswith "SWITCH_" track_type = true →
  ∃ rest mod_num,
    track_type = "SWITCH_" +:+ rest
    ∧ cell (mod_nums lvl) r c = Some mod_num
    ∧ (∀ t, (one_based r, one_based c, t) ∈ init
            ↔ t = toggled_prefix mod_val +:+ rest)
    ∧ (∀ n, (one_based r, one_based c, n) ∈ dsw
            ↔ n = mod_num ∧ 0 < mod_num).
Proof.
  intros Hinit Hb Hm Hmod Htok Hpre.
  destruct (collect_init_at _ _ _ _ _ _ Hinit Hb) as (o & Ho & Hi & Hd).
  destruct (table_switch_token _ _ Htok Hpre) as (rest & Hrest & HD & HE).
  unfold init_out in Ho. rewrite getitem2_cell, Hm in Ho. cbn [bind] in Ho.
  rewrite Htok, Hpre in Ho.
  assert ((mod_val =? MOD_TUNNEL) = false) as Hnt.
  { destruct Hmod as [-> | ->]; reflexivity. }
  assert ((mod_val =? MOD_SWAPPING_TRACK) || (mod_val =? MOD_SWITCH_RAIL)
          = true) as Hsw.
  { destruct Hmod as [-> | ->]; reflexivity. }
  rewrite Hnt, Hsw in Ho. cbn [andb] in Ho.
  rewrite getitem2_cell in Ho.
  destruct (cell (mod_nums lvl) r c) as [mod_num|]; cbn [bind] in Ho; [|done].
  injection Ho as <-. cbn [fst snd] in Hi, Hd.
  exists rest, mod_num. split_and!; [done..| |].
  - intros t. rewrite Hi, list_elem_of_singleton. unfold toggled_prefix.
    destruct (mod_val =? MOD_SWAPPING_TRACK); rewrite ?HD, ?HE;
      split; [by intros [= ->]|by intros ->|by intros [= ->]|by intros ->].
  - intros n. rewrite Hd. destruct (Z.gtb_spec mod_num 0) as [Hpos|Hnp].
    + rewrite list_elem_of_singleton. split; [intros [= ->]|intros [-> _]];
        [split; [done|lia]|done].
    + rewrite elem_of_nil. split; [done|lia].
Qed.

(** The example of the specification: code 9 under modifier 5 with group
    number 2 at row 0, column 0. *)
Lemma toggled_switch_cell_witness :
  ∃ rest mod_num,
    "SWITCH_L_R_D" = "SWITCH_" +:+ rest
    ∧ mod_num = 2
    ∧ (∀ t, (1, 1, t) ∈ [(1, 1, "DSWITCH_L_R_D"); (1, 2, "STRAIGHT_RL")]
            ↔ t = "DSWITCH_" +:+ rest)
    ∧ (∀ n, (1, 1, n) ∈ [(1, 1, 2)] ↔ n = mod_num ∧ 0 < mod_num).
Proof.
  destruct (toggled_switch_cell
              (mkLevel [[9; 3]] [[5; 0]] [[2; 0]] [] 1)
              [(1, 1, "DSWITCH_L_R_D"); (1, 2, "STRAIGHT_RL")] [(1, 1, 2)]
              0 0 9 5 "SWITCH_L_R_D"
              eq_refl eq_refl eq_refl (or_introl eq_refl) eq_refl eq_refl)
    as (rest & mod_num & Hrest & Hnum & Hi & Hd).
  exists rest, mod_num. split_and!; [done|by injection Hnum|done..].
Defined.

(** C6.  A cell that is not a tunnel mouth and whose board code the table
    maps to nothing, be it by an entry that says so or by having no entry,
    leaves both lists of the placement loop as they were, raises nothing,
    and has no entry in the placement list. *)
Theorem untranslated_cell_is_skipped (lvl : Level) (r c : nat)
    (board_val mod_val : Z) :
  cell (board lvl) r c = Some board_val →
  cell (mods lvl) r c = Some mod_val →
  mod_val ≠ MOD_TUNNEL →
  assoc board_val BOARD_TO_TRACK = Some None
  ∨ assoc board_val BOARD_TO_TRACK = None →
  (∀ st, init_step (mods lvl) (mod_nums lvl) r c board_val st = Ok st)
  ∧ (∀ init dsw, collect_init lvl = Ok (init, dsw) →
       ∀ t, (one_based r, one_based c, t) ∉ init).
Proof.
  intros Hb Hm Hnt Hnone.
  assert (BOARD_TO_TRACK_get board_val = None) as Hget.
  { unfold BOARD_TO_TRACK_get. by destruct Hnone as [-> | ->]. }
  assert ((mod_val =? MOD_TUNNEL) = false) as Hnt' by by apply Z.eqb_neq.
  split.
  - intros [init_pos dswitches]. unfold init_step.
    rewrite getitem2_cell, Hm. cbn [bind]. by rewrite Hnt', Hget.
  - intros init dsw Hinit t.
    destruct (collect_init_at _ _ _ _ _ _ Hinit Hb) as (o & Ho & Hi & _).
    unfold init_out in Ho. rewrite getitem2_cell, Hm in Ho. cbn [bind] in Ho.
    rewrite Hnt', Hget in Ho. injection Ho as <-.
    rewrite Hi. apply not_elem_of_nil.
Qed.

Lemma untranslated_cell_is_skipped_witness :
  (∀ st, init_step [[0; 0; 0]] [[0; 0; 0]] 0 1 99 st = Ok st)
  ∧ (∀ st, init_step [[0; 0; 0]] [[0; 0; 0]] 0 0 0 st = Ok st).
Proof.
  split.
  - apply (untranslated_cell_is_skipped
             (mkLevel [[0; 99; 3]] [[0; 0; 0]] [[0; 0; 0]] [] 1) 0 1 99 0);
      [reflexivity|reflexivity|discriminate|right; reflexivity].
  - apply (untranslated_cell_is_skipped
             (mkLevel [[0; 99; 3]] [[0; 0; 0]] [[0; 0; 0]] [] 1) 0 0 0 0);
      [reflexivity|reflexivity|discriminate|left; reflexivity].
Defined.

(** ** The dictionary of tunnel endpoints *)

Lemma assoc_None_keys {V} (k : Z) (d : list (Z * V)) :
  assoc k d = None ↔ k ∉ d.*1.
Proof.
  induction d as [|[k0 v] d IH]; simpl.
  - split; [intros _; apply not_elem_of_nil|done].
  - rewrite not_elem_of_cons. case_decide; [|tauto].
    split; [done|tauto].
Qed.

Lemma assoc_Some_keys {V} (k : Z) (d : list (Z * V)) :
  is_Some (assoc k d) ↔ k ∈ d.*1.
Proof.
  destruct (assoc k d) eqn:H.
  - split; [|by eauto]. intros _. destruct (decide (k ∈ d.*1)); [done|].
    apply assoc_None_keys in n. congruence.
  - apply assoc_None_keys in H. split; [by intros [? [=]]|done].
Qed.

Lemma assoc_snoc {V} (k k0 : Z) (v : V) (d : list (Z * V)) :
  assoc k (d ++ [(k0, v)])
  = match assoc k d with
    | Some y => Some y
    | None => if decide (k = k0) then Some v else None
    end.
Proof.
  induction d as [|[k1 v1] d IH]; simpl; [done|].
  destruct (decide (k = k1)); [done|exact IH].
Qed.

Lemma assoc_dict_append k' k x d :
  assoc k' (dict_append k x d)
  = if decide (k' = k) then (fun xs => xs ++ [x]) <$> assoc k d
    else assoc k' d.
Proof.
  induction d as [|[k0 xs] d IH]; simpl.
  - by case_decide.
  - destruct (decide (k = k0)) as [->|Hk]; simpl;
      destruct (decide (k' = k0)) as [->|Hk']; simpl; try done.
    by rewrite decide_False by done.
Qed.

Lemma keys_dict_append k x d : (dict_append k x d).*1 = d.*1.
Proof.
  induction d as [|[k0 xs] d IH]; simpl; [done|].
  case_decide; simpl; [done|by f_equal].
Qed.

(** Adding an endpoint to a group, as the scan does. *)
Lemma dict_add_inv k x d :
  let d' := dict_append k x (dict_setdefault_empty k d) in
  NoDup d.*1 → (∀ k ys, assoc k d = Some ys → ys ≠ []) →
  NoDup d'.*1
  ∧ (∀ k ys, assoc k d' = Some ys → ys ≠ [])
  ∧ (∀ k', lookup_or_nil k' d'
           = lookup_or_nil k' d ++ if decide (k' = k) then [x] else []).
Proof.
  intros d' Hnd Hne. subst d'. unfold dict_setdefault_empty, lookup_or_nil.
  destruct (assoc k d) as [xs|] eqn:Hk.
  - split_and!.
    + by rewrite keys_dict_append.
    + intros k' ys. rewrite assoc_dict_append. case_decide; [|by apply Hne].
      rewrite Hk. simpl. intros [= <-]. by destruct xs.
    + intros k'. rewrite assoc_dict_append. case_decide as Hk'.
      * subst. by rewrite Hk.
      * by rewrite app_nil_r.
  - split_and!.
    + rewrite keys_dict_append, fmap_app. simpl.
      apply NoDup_app. split_and!; [done| |apply NoDup_singleton].
      intros k' Hin ->%list_elem_of_singleton.
      by apply assoc_None_keys in Hk.
    + intros k' ys. rewrite assoc_dict_append.
      case_decide as Hk'.
      * rewrite assoc_snoc, Hk, decide_True by done. simpl. by intros [= <-].
      * rewrite assoc_snoc. destruct (assoc k' d) eqn:Hk''.
        -- intros [= <-]. by eapply Hne.
        -- by rewrite decide_False.
    + intros k'. rewrite assoc_dict_append. case_decide as Hk'.
      * subst. rewrite assoc_snoc, Hk, decide_True by done. done.
      * rewrite assoc_snoc. destruct (assoc k' d); simpl.
        -- by rewrite app_nil_r.
        -- by rewrite decide_False.
Qed.

Lemma tunnel_step_inv lvl pre r c board_val d d' :
  dict_inv lvl pre d →
  tunnel_step (mods lvl) (mod_nums lvl) r c board_val d = Ok d' →
  dict_inv lvl (pre ++ [(r, c, board_val)]) d'.
Proof.
  intros (Hnd & Hne & Hgr). unfold tunnel_step.
  rewrite getitem2_cell.
  destruct (cell (mods lvl) r c) as [mod_val|] eqn:Hm; cbn [bind]; [|done].
  destruct ((mod_val =? MOD_TUNNEL) && TUNNEL_DIR_contains board_val)
    eqn:Hcond.
  - rewrite getitem2_cell.
    destruct (cell (mod_nums lvl) r c) as [mod_num|] eqn:Hn; cbn [bind];
      [|done].
    intros [= <-].
    destruct (dict_add_inv mod_num (one_based r, one_based c, board_val) d
                Hnd Hne) as (Hnd' & Hne' & Hgr').
    split_and!; [done..|].
    intros k. rewrite Hgr', Hgr, omap_app. f_equal. simpl.
    rewrite Hm, Hn, Hcond. simpl.
    destruct (Z.eqb_spec mod_num k) as [->|Hk].
    + by rewrite decide_True.
    + by rewrite decide_False.
  - intros [= <-]. split_and!; [done..|].
    intros k. rewrite Hgr, omap_app. simpl. rewrite Hm, Hcond.
    destruct (cell (mod_nums lvl) r c); simpl; by rewrite app_nil_r.
Qed.

Lemma foldM_tunnel_step_inv lvl pre xs d d' :
  dict_inv lvl pre d →
  foldM (fun d (x : nat * nat * Z) =>
           tunnel_step (mods lvl) (mod_nums lvl) x.1.1 x.1.2 x.2 d) d xs
  = Ok d' →
  dict_inv lvl (pre ++ xs) d'.
Proof.
  revert pre d. induction xs as [|[[r c] v] xs IH]; intros pre d Hinv;
    cbn [foldM].
  - intros [= <-]. by rewrite app_nil_r.
  - cbn [fst snd].
    destruct (tunnel_step _ _ r c v d) as [d1|] eqn:Hstep; cbn [bind]; [|done].
    intros Hrest. rewrite (cons_middle _ pre xs), (assoc_L (++)).
    eapply IH; [|done]. by eapply tunnel_step_inv.
Qed.

(** After the scan the dictionary holds every group of the level. *)
Lemma collect_tunnel_endpoints_inv lvl d :
  collect_tunnel_endpoints lvl = Ok d → dict_inv lvl (cells (board lvl)) d.
Proof.
  unfold collect_tunnel_endpoints. rewrite for_cells_cells. intros H.
  apply (foldM_tunnel_step_inv lvl [] _ [] d); [|done].
  split_and!; [constructor|done|done].
Qed.

Lemma collect_tunnel_endpoints_group lvl d id :
  collect_tunnel_endpoints lvl = Ok d → lookup_or_nil id d = spec_group lvl id.
Proof. intros (_ & _ & H)%collect_tunnel_endpoints_inv. apply H. Qed.

Lemma collect_tunnel_endpoints_keys lvl d id :
  collect_tunnel_endpoints lvl = Ok d →
  id ∈ d.*1 ↔ spec_group lvl id ≠ [].
Proof.
  intros (_ & Hne & Hgr)%collect_tunnel_endpoints_inv.
  unfold spec_group. rewrite <- Hgr, <- assoc_Some_keys. unfold lookup_or_nil.
  destruct (assoc id d) as [ys|] eqn:Hid; simpl.
  - split; [intros _; by eapply Hne|by eauto].
  - split; [by intros [? [=]]|done].
Qed.

(** ** Pairing the tunnels *)

Lemma TUNNEL_DIR_contains_getitem val :
  TUNNEL_DIR_contains val = true →
  ∃ dir, assoc val TUNNEL_DIR = Some dir ∧ TUNNEL_DIR_getitem val = Ok dir.
Proof.
  unfold TUNNEL_DIR_contains, TUNNEL_DIR_getitem.
  intros [dir Hdir]%bool_decide_eq_true. exists dir. by rewrite Hdir.
Qed.

Lemma spec_group_known_code lvl id pos val :
  (pos, val) ∈ spec_group lvl id → TUNNEL_DIR_contains val = true.
Proof.
  unfold spec_group. rewrite list_elem_of_omap.
  intros ([[r c] v] & _ & He). unfold spec_endpoint in He.
  destruct (cell (mods lvl) r c); [|done].
  destruct (cell (mod_nums lvl) r c); [|done].
  destruct (_ && _) eqn:Hcond; [|done]. injection He as _ ->.
  by apply andb_true_iff in Hcond as [[_ ?]%andb_true_iff _].
Qed.

(** The body of the pairing loop never raises on a group of the level,
    and it appends one record for a group of two and none otherwise. *)
Lemma pair_endpoints_group lvl id :
  pair_endpoints (spec_group lvl id) = Ok (group_records lvl id)
  ∧ (length (spec_group lvl id) = 2%nat → length (group_records lvl id) = 1%nat)
  ∧ (length (spec_group lvl id) ≠ 2%nat → group_records lvl id = []).
Proof.
  unfold group_records.
  pose proof (spec_group_known_code lvl id) as Hknown.
  destruct (spec_group lvl id) as [|[[r1 c1] v1] [|[[r2 c2] v2] [|e3 es]]];
    cbn [pair_endpoints]; try (split_and!; [done|done|done]).
  destruct (TUNNEL_DIR_contains_getitem v1) as (d1 & _ & ->).
  { eapply Hknown. by left. }
  destruct (TUNNEL_DIR_contains_getitem v2) as (d2 & _ & ->).
  { eapply Hknown. right. by left. }
  cbn [bind]. by split_and!.
Qed.

Lemma foldM_pair_step lvl d keys acc :
  collect_tunnel_endpoints lvl = Ok d →
  (∀ k, k ∈ keys → k ∈ d.*1) →
  foldM (pair_step d) acc keys = Ok (acc ++ mjoin (group_records lvl <$> keys)).
Proof.
  intros Hd. revert acc. induction keys as [|k keys IH]; intros acc Hkeys;
    cbn [foldM].
  - simpl. by rewrite app_nil_r.
  - unfold pair_step at 1, dict_getitem.
    pose proof (collect_tunnel_endpoints_group lvl d k Hd) as Hk.
    unfold lookup_or_nil in Hk.
    destruct (assoc k d) as [ys|] eqn:Hkd.
    2: { apply assoc_None_keys in Hkd. destruct Hkd. apply Hkeys. by left. }
    simpl in Hk. subst ys. cbn [bind].
    destruct (pair_endpoints_group lvl k) as (-> & _). cbn [bind].
    rewrite IH by (intros k' ?; apply Hkeys; by right).
    simpl. by rewrite (assoc_L (++)).
Qed.

Lemma sorted_keys_elem d k : k ∈ sorted_keys d ↔ k ∈ d.*1.
Proof. unfold sorted_keys. by rewrite merge_sort_Permutation. Qed.

Lemma pair_tunnels_groups lvl d :
  collect_tunnel_endpoints lvl = Ok d →
  pair_tunnels d = Ok (mjoin (group_records lvl <$> sorted_keys d)).
Proof.
  intros Hd. unfold pair_tunnels.
  rewrite (foldM_pair_step lvl) by (done || by intros k ?%sorted_keys_elem).
  done.
Qed.

(** C5.  After the scan, the pairing loop returns for every level and
    raises nothing.  It goes through the group numbers that have an
    endpoint, each once and in ascending order, and its result is the
    concatenation of what the groups contribute: one record for a group
    of exactly two endpoints, nothing for a group of one or of more than
    two.  A number without an endpoint is not a group at all. *)
Theorem odd_tunnel_groups_are_dropped (lvl : Level) (d : endpoint_dict) :
  collect_tunnel_endpoints lvl = Ok d →
  ∃ recs : Z → list (Z * Z * string * Z * Z * string),
    pair_tunnels d = Ok (mjoin (recs <$> sorted_keys d))
    ∧ collect_tunnel_pairs lvl = Ok (mjoin (recs <$> sorted_keys d))
    ∧ Sorted Z.le (sorted_keys d)
    ∧ NoDup (sorted_keys d)
    ∧ (∀ id, id ∈ sorted_keys d ↔ spec_group lvl id ≠ [])
    ∧ (∀ id, length (spec_group lvl id) = 2%nat → length (recs id) = 1%nat)
    ∧ (∀ id, length (spec_group lvl id) ≠ 2%nat → recs id = []).
Proof.
  intros Hd. exists (group_records lvl).
  pose proof (pair_tunnels_groups lvl d Hd) as Hp. split_and!.
  - done.
  - unfold collect_tunnel_pairs. by rewrite Hd.
  - apply Sorted_merge_sort. apply _.
  - unfold sorted_keys. rewrite merge_sort_Permutation.
    by apply collect_tunnel_endpoints_inv in Hd as (? & _).
  - intros id. rewrite sorted_keys_elem.
    by apply collect_tunnel_endpoints_keys.
  - intros id. apply pair_endpoints_group.
  - intros id. apply pair_endpoints_group.
Qed.

Lemma odd_tunnel_groups_are_dropped_witness :
  ∃ recs : Z → list (Z * Z * string * Z * Z * string),
    collect_tunnel_pairs
      (mkLevel [[17; 18; 3]; [19; 20; 17]; [18; 0; 18]]
               [[2; 2; 0]; [2; 2; 2]; [2; 0; 2]]
               [[4; 1; 0]; [1; 7; 4]; [7; 0; 7]] [] 1)
    = Ok (mjoin (recs <$> [1; 4; 7]))
    ∧ length (recs 1) = 1%nat ∧ length (recs 4) = 1%nat ∧ recs 7 = []
    ∧ recs 5 = [].
Proof.
  destruct (odd_tunnel_groups_are_dropped
              (mkLevel [[17; 18; 3]; [19; 20; 17]; [18; 0; 18]]
                       [[2; 2; 0]; [2; 2; 2]; [2; 0; 2]]
                       [[4; 1; 0]; [1; 7; 4]; [7; 0; 7]] [] 1)
              [(4, [((1, 1), 17); ((2, 3), 17)]);
               (1, [((1, 2), 18); ((2, 1), 19)]);
               (7, [((2, 2), 20); ((3, 1), 18); ((3, 3), 18)])]
              eq_refl)
    as (recs & _ & Hc & _ & _ & _ & H2 & Hn2).
  exists recs. split_and!.
  - exact Hc.
  - apply H2. reflexivity.
  - apply H2. reflexivity.
  - apply Hn2. vm_compute. discriminate.
  - apply Hn2. vm_compute. discriminate.
Defined.

(** C1, as the code has it.  For a tunnel group of exactly two endpoints,
    taken in row-major order, the record in the list of tunnel pairs is
    the first position with the direction of the first endpoint's own
    board code, then the second position with the direction of the second
    endpoint's own board code. *)
Theorem tunnel_pair_record (lvl : Level) (d : endpoint_dict) (id : Z)
    (r1 c1 val1 r2 c2 val2 : Z) :
  collect_tunnel_endpoints lvl = Ok d →
  spec_group lvl id = [((r1, c1), val1); ((r2, c2), val2)] →
  ∃ dir1 dir2 tunnel_pairs,
    assoc val1 TUNNEL_DIR = Some dir1
    ∧ assoc val2 TUNNEL_DIR = Some dir2
    ∧ collect_tunnel_pairs lvl = Ok tunnel_pairs
    ∧ group_records lvl id = [(r1, c1, dir1, r2, c2, dir2)]
    ∧ (r1, c1, dir1, r2, c2, dir2) ∈ tunnel_pairs.
Proof.
  intros Hd Hg.
  destruct (TUNNEL_DIR_contains_getitem val1) as (dir1 & Ha1 & Hg1).
  { eapply (spec_group_known_code lvl id). rewrite Hg. by left. }
  destruct (TUNNEL_DIR_contains_getitem val2) as (dir2 & Ha2 & Hg2).
  { eapply (spec_group_known_code lvl id). rewrite Hg. right. by left. }
  assert (group_records lvl id = [(r1, c1, dir1, r2, c2, dir2)]) as Hrec.
  { unfold group_records. rewrite Hg. cbn [pair_endpoints].
    by rewrite Hg1, Hg2. }
  exists dir1, dir2, (mjoin (group_records lvl <$> sorted_keys d)).
  split_and!; [done|done| |done|].
  - unfold collect_tunnel_pairs. rewrite Hd. cbn [bind].
    by apply pair_tunnels_groups.
  - apply list_elem_of_join. exists (group_records lvl id). split.
    + rewrite Hrec. by left.
    + apply list_elem_of_fmap_2. apply sorted_keys_elem.
      apply (collect_tunnel_endpoints_keys lvl d id Hd). by rewrite Hg.
Qed.

Lemma tunnel_pair_record_witness :
  ∃ dir1 dir2 tunnel_pairs,
    assoc 17 TUNNEL_DIR = Some dir1
    ∧ assoc 18 TUNNEL_DIR = Some dir2
    ∧ collect_tunnel_pairs (mkLevel [[17; 18; 3]] [[2; 2; 0]] [[1; 1; 0]] [] 1)
      = Ok tunnel_pairs
    ∧ (1, 1, dir1, 1, 2, dir2) ∈ tunnel_pairs.
Proof.
  destruct (tunnel_pair_record
              (mkLevel [[17; 18; 3]] [[2; 2; 0]] [[1; 1; 0]] [] 1)
              [(1, [((1, 1), 17); ((1, 2), 18)])] 1 1 1 17 1 2 18
              eq_refl eq_refl)
    as (dir1 & dir2 & tp & H1 & H2 & Htp & _ & Hin).
  exists dir1, dir2, tp. by split_and!.
Defined.

(** C1, as the specification words it, fails: on the board [[17, 18, 3]]
    with both tunnel codes in group 1 the list of tunnel pairs is
    [(1, 1, LEFT, 1, 2, RIGHT)], each mouth with the direction of its own
    code, and the record with the two directions exchanged is not in it. *)
Lemma swapped_record_counterexample :
  collect_tunnel_pairs (mkLevel [[17; 18; 3]] [[2; 2; 0]] [[1; 1; 0]] [] 1)
  = Ok [(1, 1, "LEFT", 1, 2, "RIGHT")]
  ∧ ¬ spec_swapped_record_emitted
        (mkLevel [[17; 18; 3]] [[2; 2; 0]] [[1; 1; 0]] [] 1).
Proof.
  split; [reflexivity|]. intros Hswap.
  specialize (Hswap 1 1 1 17 1 2 18 "LEFT" "RIGHT"
                [(1, 1, "LEFT", 1, 2, "RIGHT")]
                eq_refl eq_refl eq_refl eq_refl).
  apply list_elem_of_singleton in Hswap. discriminate Hswap.
Qed.

(** ** Which passes can raise, and what *)

Lemma getitem2_raise grid r c e : getitem2 grid r c = Raise e → e = IndexError.
Proof. rewrite getitem2_cell. destruct (cell grid r c); congruence. Qed.

Lemma for_cells_raise {S} grid (body : nat → nat → Z → S → result S) s e :
  for_cells grid body s = Raise e →
  ∃ r c v s', cell grid r c = Some v ∧ body r c v s' = Raise e.
Proof.
  rewrite for_cells_cells. intros (s' & [[r c] v] & Hx & Hb)%foldM_raise.
  exists r, c, v, s'. split; [by apply elem_of_cells|done].
Qed.

Lemma for_cells_ok {S} grid (body : nat → nat → Z → S → result S) s :
  (∀ r c v s, cell grid r c = Some v → is_ok (body r c v s) = true) →
  is_ok (for_cells grid body s) = true.
Proof.
  intros Hb. rewrite for_cells_cells. apply foldM_ok.
  intros s' [[r c] v] Hx. apply Hb. by apply elem_of_cells.
Qed.

Lemma init_step_raise mods mod_nums r c v st e :
  init_step mods mod_nums r c v st = Raise e → e = IndexError.
Proof.
  destruct st as [init_pos dswitches]. unfold init_step.
  destruct (getitem2 mods r c) eqn:Hm; cbn [bind];
    [|intros [= <-]; by eapply getitem2_raise].
  destruct (_ =? MOD_TUNNEL); [done|].
  destruct (BOARD_TO_TRACK_get v); [|done].
  destruct (_ && _); [|done].
  destruct (getitem2 mod_nums r c) eqn:Hn; cbn [bind];
    [done|intros [= <-]; by eapply getitem2_raise].
Qed.

Lemma tunnel_step_raise mods mod_nums r c v d e :
  tunnel_step mods mod_nums r c v d = Raise e → e = IndexError.
Proof.
  unfold tunnel_step.
  destruct (getitem2 mods r c) eqn:Hm; cbn [bind];
    [|intros [= <-]; by eapply getitem2_raise].
  destruct (_ && _); [|done].
  destruct (getitem2 mod_nums r c) eqn:Hn; cbn [bind];
    [done|intros [= <-]; by eapply getitem2_raise].
Qed.

Lemma gate_step_raise mod_nums r c v st e :
  gate_step mod_nums r c v st = Raise e → e = IndexError.
Proof.
  destruct st as [gates activations]. unfold gate_step.
  destruct (getitem2 mod_nums r c) eqn:Hn; cbn [bind];
    [|intros [= <-]; by eapply getitem2_raise].
  destruct (_ || _); [done|]. by destruct (_ && _).
Qed.

Lemma station_step_raise mod_nums r c v st e :
  station_step mod_nums r c v st = Raise e → e = IndexError.
Proof.
  unfold station_step. destruct (_ =? MOD_STATION); [|done].
  destruct (getitem2 mod_nums r c) eqn:Hn; cbn [bind];
    [done|intros [= <-]; by eapply getitem2_raise].
Qed.

Lemma collect_cars_raise_inv cars e :
  collect_cars cars = Raise e →
  ∃ dir, e = KeyError dir ∧ dir ∉ known_directions.
Proof.
  intros He. destruct (decide (Forall car_direction_ok cars)) as [Hall|Hbad].
  - by rewrite collect_cars_ok in He.
  - destruct (first_bad_car cars Hbad) as (pre & car & post & -> & Hpre & Hcar).
    rewrite collect_cars_raise in He by done. injection He as <-.
    exists (car_direction car). split; [done|].
    intros Hin. apply Hcar. by intros _.
Qed.

Lemma collect_tunnel_pairs_raise lvl e :
  collect_tunnel_pairs lvl = Raise e → e = IndexError.
Proof.
  unfold collect_tunnel_pairs.
  destruct (collect_tunnel_endpoints lvl) as [d|e'] eqn:Hd; cbn [bind].
  - by rewrite (pair_tunnels_groups lvl d Hd).
  - intros [= <-]. unfold collect_tunnel_endpoints in Hd.
    apply for_cells_raise in Hd as (r & c & v & s' & _ & Hb).
    by eapply tunnel_step_raise.
Qed.

(** ** Well-formed levels *)

Lemma same_shape_cell g1 g2 r c :
  same_shape g1 g2 → is_Some (cell g1 r c) → is_Some (cell g2 r c).
Proof.
  unfold same_shape, cell. intros Hsh.
  destruct (g1 !! r) as [row1|] eqn:H1; [|by intros [? [=]]].
  destruct (Forall2_lookup_l _ _ _ _ _ Hsh H1) as (row2 & -> & Hlen).
  rewrite !lookup_lt_is_Some. lia.
Qed.

Lemma same_shape_sym g1 g2 : same_shape g1 g2 → same_shape g2 g1.
Proof. unfold same_shape. induction 1; constructor; auto. Qed.

Lemma getitem2_is_ok grid r c :
  is_Some (cell grid r c) → is_ok (getitem2 grid r c) = true.
Proof. rewrite getitem2_cell. by intros [v ->]. Qed.

Section WellFormed.
Context (lvl : Level).
Hypothesis Hmods : same_shape (board lvl) (mods lvl).
Hypothesis Hnums : same_shape (board lvl) (mod_nums lvl).

Lemma board_cell_mods r c v :
  cell (board lvl) r c = Some v → is_ok (getitem2 (mods lvl) r c) = true.
Proof.
  intros Hc. apply getitem2_is_ok. eapply same_shape_cell; [done|by eauto].
Qed.

Lemma board_cell_mod_nums r c v :
  cell (board lvl) r c = Some v → is_ok (getitem2 (mod_nums lvl) r c) = true.
Proof.
  intros Hc. apply getitem2_is_ok. eapply same_shape_cell; [done|by eauto].
Qed.

Lemma mods_cell_mod_nums r c v :
  cell (mods lvl) r c = Some v → is_ok (getitem2 (mod_nums lvl) r c) = true.
Proof.
  intros Hc. apply getitem2_is_ok.
  eapply same_shape_cell; [exact Hnums|].
  eapply (same_shape_cell (mods lvl) (board lvl));
    [apply same_shape_sym, Hmods|by eauto].
Qed.

Lemma collect_init_ok : is_ok (collect_init lvl) = true.
Proof.
  apply for_cells_ok. intros r c v [init_pos dswitches] Hc.
  pose proof (board_cell_mods r c v Hc) as Hm.
  pose proof (board_cell_mod_nums r c v Hc) as Hn.
  unfold init_step.
  destruct (getitem2 (mods lvl) r c) as [m|]; cbn [bind]; [|done].
  destruct (m =? MOD_TUNNEL); [done|].
  destruct (BOARD_TO_TRACK_get v); [|done].
  destruct (_ && _); [|done].
  by destruct (getitem2 (mod_nums lvl) r c).
Qed.

Lemma collect_tunnel_pairs_ok : is_ok (collect_tunnel_pairs lvl) = true.
Proof.
  assert (is_ok (collect_tunnel_endpoints lvl) = true) as Hd.
  { apply for_cells_ok. intros r c v d Hc.
    pose proof (board_cell_mods r c v Hc) as Hm.
    pose proof (board_cell_mod_nums r c v Hc) as Hn.
    unfold tunnel_step.
    destruct (getitem2 (mods lvl) r c) as [m|]; cbn [bind]; [|done].
    destruct (_ && _); [|done].
    by destruct (getitem2 (mod_nums lvl) r c). }
  unfold collect_tunnel_pairs.
  destruct (collect_tunnel_endpoints lvl) as [d|] eqn:Hd'; [|done].
  cbn [bind]. by rewrite (pair_tunnels_groups lvl d Hd').
Qed.

Lemma collect_gates_ok : is_ok (collect_gates lvl) = true.
Proof.
  apply for_cells_ok. intros r c v [gates activations] Hc.
  pose proof (mods_cell_mod_nums r c v Hc) as Hn. unfold gate_step.
  destruct (getitem2 (mod_nums lvl) r c) as [n|]; cbn [bind]; [|done].
  destruct (_ || _); [done|]. by destruct (_ && _).
Qed.

Lemma collect_stations_ok : is_ok (collect_stations lvl) = true.
Proof.
  apply for_cells_ok. intros r c v stations Hc.
  pose proof (mods_cell_mod_nums r c v Hc) as Hn. unfold station_step.
  destruct (v =? MOD_STATION); [|done].
  by destruct (getitem2 (mod_nums lvl) r c).
Qed.
End WellFormed.

(** ** The whole conversion *)

Lemma convert_level_is_ok name lvl :
  is_ok (convert_level name lvl) = is_ok (collect_level name lvl).
Proof. unfold convert_level. by destruct (collect_level name lvl). Qed.

Lemma collect_level_no_target name lvl :
  find_target (board lvl) = None →
  collect_level name lvl = Raise (ValueError (no_target_message name)).
Proof. intros H. unfold collect_level. by rewrite H. Qed.

(** With a target, anything the conversion raises comes from a subscript
    or from the direction table. *)
Lemma collect_level_raise_with_target name lvl e :
  is_Some (find_target (board lvl)) →
  collect_level name lvl = Raise e →
  e = IndexError
  ∨ (∃ dir, (dir ∉ known_directions)
            ∧ collect_cars (cars lvl) = Raise (KeyError dir)
            ∧ e = KeyError dir).
Proof.
  intros [t Ht]. unfold collect_level. rewrite Ht. cbn [bind].
  destruct (collect_cars (cars lvl)) as [[trains decoys]|e1] eqn:Hcars;
    cbn [bind].
  2: { intros [= <-]. right.
       destruct (collect_cars_raise_inv _ _ Hcars) as (dir & -> & Hdir).
       by exists dir. }
  destruct (collect_init lvl) as [[init_pos dswitches]|e2] eqn:Hinit;
    cbn [bind].
  2: { intros [= <-]. left. unfold collect_init in Hinit.
       apply for_cells_raise in Hinit as (r & c & v & s' & _ & Hb).
       by eapply init_step_raise. }
  destruct (collect_tunnel_pairs lvl) as [tunnel_pairs|e3] eqn:Htp;
    cbn [bind].
  2: { intros [= <-]. left. by eapply collect_tunnel_pairs_raise. }
  destruct (collect_gates lvl) as [[gates activations]|e4] eqn:Hg;
    cbn [bind].
  2: { intros [= <-]. left. unfold collect_gates in Hg.
       apply for_cells_raise in Hg as (r & c & v & s' & _ & Hb).
       by eapply gate_step_raise. }
  destruct (collect_stations lvl) as [stations|e5] eqn:Hs; cbn [bind]; [done|].
  intros [= <-]. left. unfold collect_stations in Hs.
  apply for_cells_raise in Hs as (r & c & v & s' & _ & Hb).
  by eapply station_step_raise.
Qed.

Lemma collect_level_ok name lvl :
  well_formed lvl → is_Some (find_target (board lvl)) →
  is_ok (collect_level name lvl) = true.
Proof.
  intros (Hmods & Hnums & Hcars) [t Ht]. unfold collect_level.
  rewrite Ht. cbn [bind]. rewrite (collect_cars_ok _ Hcars). cbn [bind].
  pose proof (collect_init_ok lvl Hmods Hnums) as Hi.
  destruct (collect_init lvl) as [[init_pos dswitches]|]; [|done]. cbn [bind].
  pose proof (collect_tunnel_pairs_ok lvl Hmods Hnums) as Htp.
  destruct (collect_tunnel_pairs lvl); [|done]. cbn [bind].
  pose proof (collect_gates_ok lvl Hmods Hnums) as Hg.
  destruct (collect_gates lvl) as [[gates activations]|]; [|done]. cbn [bind].
  pose proof (collect_stations_ok lvl Hmods Hnums) as Hs.
  by destruct (collect_stations lvl).
Qed.

Lemma convert_level_raise name lvl e :
  convert_level name lvl = Raise e ↔ collect_level name lvl = Raise e.
Proof.
  unfold convert_level. destruct (collect_level name lvl); cbn [bind];
    split; congruence.
Qed.

(** ** The batch loop *)

(** A level whose conversion raises leaves the files as they were, and
    when [main] reaches the conversion it reports the exception under the
    name of the level and counts nothing. *)
Lemma level_step_raise a st name lvl e :
  convert_level name lvl = Raise e →
  files (level_step a st (name, lvl)) = files st
  ∧ (conversion_attempted a st name →
     stderr (level_step a st (name, lvl)) = stderr st ++ [(name, e)]
     ∧ converted (level_step a st (name, lvl)) = converted st).
Proof.
  intros He. unfold level_step, conversion_attempted. rewrite He.
  destruct (startswith "#" name); [split; [done|by intros [? _]]|].
  destruct (prefix_mismatch a name); [split; [done|by intros (_ & ? & _)]|].
  destruct (negb (force a) && _) eqn:Hskip; cbn [files stderr converted];
    [|done].
  split; [done|]. intros (_ & _ & [Hf|Hnone]).
  - by rewrite Hf in Hskip.
  - rewrite Hnone in Hskip. rewrite bool_decide_eq_false_2 in Hskip.
    + by rewrite andb_false_r in Hskip.
    + by intros [? [=]].
Qed.

(** Running a level a second time changes no file. *)
Lemma level_step_files_idemp a st item :
  files (level_step a (level_step a st item) item)
  = files (level_step a st item).
Proof.
  destruct item as [name lvl]. unfold level_step.
  destruct (startswith "#" name); [done|].
  destruct (prefix_mismatch a name); [done|].
  destruct (convert_level name lvl) as [dzn_content|e]; destruct (force a);
    cbn [negb andb files].
  - apply insert_insert_eq.
  - destruct (bool_decide (is_Some (files st !! output_path_of a name)))
      eqn:Hex; cbn [files].
    + by rewrite Hex.
    + rewrite lookup_insert_eq. by rewrite bool_decide_eq_true_2 by eauto.
  - done.
  - destruct (bool_decide (is_Some (files st !! output_path_of a name)))
      eqn:Hex; cbn [files]; by rewrite Hex.
Qed.

(** ** The claims about whole levels *)

(** C2.  The conversion raises the error that names the level exactly when
    no cell of the board has code 3, and it raises no other value error.
    For a well-formed level that is the only failure: the conversion
    returns unless the board has no such cell.  When a level fails this
    way the batch loop writes no file for it; if the loop reached the
    conversion it reports the error under the name of the level and counts
    nothing; and the loop goes on with the levels that follow. *)
Theorem conversion_fails_iff_no_target (name : string) (lvl : Level) :
  (convert_level name lvl = Raise (ValueError (no_target_message name))
   ↔ no_target_cell (board lvl))
  ∧ (∀ msg, convert_level name lvl = Raise (ValueError msg) →
            msg = no_target_message name)
  ∧ (well_formed lvl →
     (is_ok (convert_level name lvl) = false ↔ no_target_cell (board lvl)))
  ∧ (no_target_cell (board lvl) →
     ∀ a st,
       files (level_step a st (name, lvl)) = files st
       ∧ (conversion_attempted a st name →
          stderr (level_step a st (name, lvl))
          = stderr st ++ [(name, ValueError (no_target_message name))]
          ∧ converted (level_step a st (name, lvl)) = converted st)
       ∧ (∀ levels before rest,
            sorted_items levels = before ++ (name, lvl) :: rest →
            main_loop a levels st
            = fold_left (level_step a) rest
                (level_step a (fold_left (level_step a) before st)
                   (name, lvl)))).
Proof.
  unfold no_target_cell.
  assert (is_Some (find_target (board lvl)) →
          ∀ msg, convert_level name lvl ≠ Raise (ValueError msg)) as Hother.
  { intros Ht msg He%convert_level_raise.
    by destruct (collect_level_raise_with_target _ _ _ Ht He)
      as [?|(? & _ & _ & ?)]. }
  assert ((∀ r c, cell (board lvl) r c ≠ Some 3) →
          convert_level name lvl = Raise (ValueError (no_target_message name)))
    as Hfail.
  { intros Hno%find_target_None. apply convert_level_raise.
    by apply collect_level_no_target. }
  split_and!.
  - split; [|done]. intros He. apply find_target_None.
    destruct (find_target (board lvl)) eqn:Ht; [|done].
    by destruct (Hother (mk_is_Some _ _ eq_refl) _ He).
  - intros msg He. destruct (find_target (board lvl)) eqn:Ht.
    + by destruct (Hother (mk_is_Some _ _ eq_refl) _ He).
    + rewrite Hfail in He by by apply find_target_None. by injection He.
  - intros Hwf. split.
    + intros Hnok. apply find_target_None.
      destruct (find_target (board lvl)) eqn:Ht; [|done].
      rewrite convert_level_is_ok, collect_level_ok in Hnok; [done..|].
      by rewrite Ht.
    + intros Hno. by rewrite Hfail.
  - intros Hno a st. specialize (Hfail Hno).
    destruct (level_step_raise a st _ _ _ Hfail) as [Hfiles Hrep].
    split_and!; [done..|]. intros levels before rest Hsorted.
    unfold main_loop. by rewrite Hsorted, fold_left_app.
Qed.

Lemma conversion_fails_iff_no_target_witness :
  (is_ok (convert_level "1-1" (mkLevel [[1; 0]] [[0; 0]] [[0; 0]] [] 1))
   = false
   ↔ no_target_cell [[1; 0]])
  ∧ files (level_step (mkArgs true "data" None) (mkRun ∅ ∅ [] [] 0 0 0)
             ("1-1", mkLevel [[1; 0]] [[0; 0]] [[0; 0]] [] 1))
    = ∅.
Proof.
  destruct (conversion_fails_iff_no_target "1-1"
              (mkLevel [[1; 0]] [[0; 0]] [[0; 0]] [] 1))
    as (_ & _ & Hwf & Hmain).
  split.
  - apply Hwf. compute_done.
  - apply Hmain.
    intros [|r] [|[|c]] H; unfold cell in H; simpl in H; discriminate H.
Defined.

(** C7.  When every train and decoy faces one of the four directions, the
    car loop returns the cars of kind [NORMAL] and the cars of kind
    [DECOY], each list in input order and each car as
    [(row + 1, col + 1, direction)] with [UP] turned into [TOP] and the
    other directions unchanged; a car of another kind is in neither list.
    Every record the conversion produces has these two lists. *)
Theorem cars_are_partitioned (lvl : Level) :
  (Forall car_direction_ok (cars lvl) →
   collect_cars (cars lvl)
   = Ok (spec_car_record <$> filter is_normal (cars lvl),
         spec_car_record <$> filter is_decoy (cars lvl)))
  ∧ (∀ name d, collect_level name lvl = Ok d →
       dzn_trains d = spec_car_record <$> filter is_normal (cars lvl)
       ∧ dzn_decoys d = spec_car_record <$> filter is_decoy (cars lvl)).
Proof.
  split; [apply collect_cars_ok|].
  intros name d (_ & Hcars & _)%collect_level_fields.
  assert (Forall car_direction_ok (cars lvl)) as Hall.
  { apply collect_cars_is_ok. by rewrite Hcars. }
  rewrite (collect_cars_ok _ Hall) in Hcars. by injection Hcars as <- <-.
Qed.

Lemma cars_are_partitioned_witness :
  collect_cars [mkCar "NORMAL" (0, 2) "UP"; mkCar "GHOST" (5, 5) "NOWHERE";
                mkCar "DECOY" (1, 0) "LEFT"; mkCar "NORMAL" (3, 1) "DOWN"]
  = Ok ([(1, 3, "TOP"); (4, 2, "DOWN")], [(2, 1, "LEFT")]).
Proof.
  apply (proj1 (cars_are_partitioned
                  (mkLevel [[3]] [[0]] [[0]]
                     [mkCar "NORMAL" (0, 2) "UP";
                      mkCar "GHOST" (5, 5) "NOWHERE";
                      mkCar "DECOY" (1, 0) "LEFT";
                      mkCar "NORMAL" (3, 1) "DOWN"] 1))).
  compute_done.
Defined.

(** C8.  The level with the 1×1 board [[3]], modifiers [[0]], group
    numbers [[0]], one track and no cars converts, under any name, to a
    record with target [(1, 1)], no trains, no decoys and the placement
    [(1, 1, STRAIGHT_RL)]; the text written is the lines below, each
    followed by a newline. *)
Theorem one_cell_level_example (name : string) :
  ∃ d,
    collect_level name (mkLevel [[3]] [[0]] [[0]] [] 1) = Ok d
    ∧ convert_level name (mkLevel [[3]] [[0]] [[0]] [] 1) = Ok (render d)
    ∧ dzn_target d = (1, 1)
    ∧ dzn_trains d = []
    ∧ dzn_decoys d = []
    ∧ (1, 1, "STRAIGHT_RL") ∈ dzn_init_pos d
    ∧ dzn_lines d
      = [ "W=1;"; "H=1;"; ""; "MAX_TIME=W*H;"; "MAX_TRACKS=1;"; "";
          "TARGET=(1,1);"; ""; "TRAINS=[];"; "DECOYS=[];"; "";
          "INIT_POS=["; "(1,1,STRAIGHT_RL),"; "];"; "TUNNEL_PAIRS=[];"; "";
          "GATES=[];"; "ACTIVATIONS=[];"; ""; "DSWITCHES=[];";
          "STATIONS=[];" ].
Proof.
  eexists. split; [reflexivity|].
  split_and!; [reflexivity..| |by vm_compute]. by left.
Qed.

(** C9.  The conversion is a function of the level name and the level
    alone: on equal inputs two runs return equal results, text or
    exception.  In the batch loop, converting a level again after it was
    converted leaves every file with the content it had. *)
Theorem conversion_is_deterministic (name : string) (lvl1 lvl2 : Level) :
  lvl1 = lvl2 →
  convert_level name lvl1 = convert_level name lvl2
  ∧ ∀ a st,
      files (level_step a (level_step a st (name, lvl1)) (name, lvl2))
      = files (level_step a st (name, lvl1)).
Proof.
  intros <-. split; [done|]. intros a st. apply level_step_files_idemp.
Qed.

Lemma conversion_is_deterministic_witness :
  convert_level "1-1" (mkLevel [[3]] [[0]] [[0]] [] 1)
  = convert_level "1-1" (mkLevel [[3]] [[0]] [[0]] [] 1).
Proof.
  apply (conversion_is_deterministic "1-1"
           (mkLevel [[3]] [[0]] [[0]] [] 1) (mkLevel [[3]] [[0]] [[0]] [] 1)).
  reflexivity.
Defined.

(** C10, as the code has it.  A level with a car of kind [NORMAL] or
    [DECOY] whose direction is none of the four does not convert.  The car
    loop raises the failed lookup of a direction the table lacks, and so
    does the conversion whenever the board has a target; without a target
    the conversion raises the error that names the level, before it
    reaches the cars.  Either way the batch loop writes no file for the
    level, and if it reached the conversion it reports the exception under
    the name of the level. *)
Theorem unknown_direction_raises (name : string) (lvl : Level) (car : Car) :
  car ∈ cars lvl →
  is_normal car ∨ is_decoy car →
  car_direction car ∉ known_directions →
  (∃ dir, (dir ∉ known_directions)
          ∧ collect_cars (cars lvl) = Raise (KeyError dir)
          ∧ (is_Some (find_target (board lvl)) →
             convert_level name lvl = Raise (KeyError dir)))
  ∧ (find_target (board lvl) = None →
     convert_level name lvl = Raise (ValueError (no_target_message name)))
  ∧ ∃ e,
      convert_level name lvl = Raise e
      ∧ ∀ a st,
          files (level_step a st (name, lvl)) = files st
          ∧ (conversion_attempted a st name →
             stderr (level_step a st (name, lvl)) = stderr st ++ [(name, e)]
             ∧ converted (level_step a st (name, lvl)) = converted st).
Proof.
  intros Hin Hkind Hdir.
  assert (¬ Forall car_direction_ok (cars lvl)) as Hbad.
  { rewrite Forall_forall. intros Hall. by apply Hdir, (Hall car). }
  destruct (first_bad_car _ Hbad) as (pre & bad & post & Hcars & Hpre & Hno).
  assert (car_direction bad ∉ known_directions) as Hbaddir.
  { intros ?. apply Hno. by intros _. }
  assert (collect_cars (cars lvl) = Raise (KeyError (car_direction bad)))
    as Hraise.
  { rewrite Hcars. by apply collect_cars_raise. }
  assert (is_Some (find_target (board lvl)) →
          convert_level name lvl = Raise (KeyError (car_direction bad)))
    as Htarget.
  { intros [t Ht]. unfold convert_level, collect_level.
    by rewrite Ht, Hraise. }
  split_and!.
  - exists (car_direction bad). by split_and!.
  - intros Hnone. apply convert_level_raise. by apply collect_level_no_target.
  - destruct (find_target (board lvl)) as [t|] eqn:Ht.
    + exists (KeyError (car_direction bad)).
      split; [by apply Htarget|].
      intros a st. apply level_step_raise. by apply Htarget.
    + exists (ValueError (no_target_message name)).
      assert (convert_level name lvl
              = Raise (ValueError (no_target_message name))) as He.
      { apply convert_level_raise. by apply collect_level_no_target. }
      split; [done|]. intros a st. by apply level_step_raise.
Qed.

Lemma unknown_direction_raises_witness :
  ∃ dir,
    collect_cars [mkCar "NORMAL" (0, 0) "UP"; mkCar "DECOY" (0, 0) "NORTH"]
    = Raise (KeyError dir)
    ∧ convert_level "1-1"
        (mkLevel [[3]] [[0]] [[0]]
           [mkCar "NORMAL" (0, 0) "UP"; mkCar "DECOY" (0, 0) "NORTH"] 1)
      = Raise (KeyError dir).
Proof.
  destruct (unknown_direction_raises "1-1"
              (mkLevel [[3]] [[0]] [[0]]
                 [mkCar "NORMAL" (0, 0) "UP"; mkCar "DECOY" (0, 0) "NORTH"] 1)
              (mkCar "DECOY" (0, 0) "NORTH"))
    as [(dir & _ & Hc & Ht) _].
  - right. left.
  - right. reflexivity.
  - compute_done.
  - exists dir. split; [exact Hc|]. apply Ht. by eexists.
Defined.

(** C10, as the specification words it, fails: the board [[1]] has no
    target, so the conversion raises the error that names the level before
    it reads the car with the direction [NORTH], and no failed lookup in
    the direction table is raised. *)
Lemma unknown_direction_counterexample :
  convert_level "1-1"
    (mkLevel [[1]] [[0]] [[0]] [mkCar "NORMAL" (0, 0) "NORTH"] 1)
  = Raise (ValueError "No target found for level 1-1")
  ∧ ¬ spec_unknown_direction_is_key_error "1-1"
        (mkLevel [[1]] [[0]] [[0]] [mkCar "NORMAL" (0, 0) "NORTH"] 1).
Proof.
  split; [reflexivity|]. intros Hclaim.
  destruct (Hclaim (mkCar "NORMAL" (0, 0) "NORTH")) as [dir Hdir].
  - by left.
  - by left.
  - compute_done.
  - discriminate Hdir.
Qed.

(** * Further properties of the converter *)

(** ** Loops whose success does not depend on the state *)

Lemma foldM_is_ok_iff {S X} (body : S → X → result S) (okx : X → bool) s xs :
  (∀ s x, is_ok (body s x) = okx x) →
  is_ok (foldM body s xs) = true ↔ ∀ x, x ∈ xs → okx x = true.
Proof.
  intros Hok. revert s. induction xs as [|x xs IH]; intros s; cbn [foldM].
  - split; [by intros _ x ?%elem_of_nil|done].
  - specialize (Hok s x) as Hx.
    destruct (body s x) as [s'|e]; cbn [bind is_ok] in *.
    + rewrite IH. split.
      * intros Hxs y [->|Hy]%elem_of_cons; [done|by apply Hxs].
      * intros Hxs y Hy. apply Hxs. by right.
    + split; [done|]. intros Hxs. rewrite Hx. apply Hxs. by left.
Qed.

Lemma for_cells_is_ok_iff {S} grid (body : nat → nat → Z → S → result S)
    (okx : nat → nat → Z → bool) s :
  (∀ r c v s, is_ok (body r c v s) = okx r c v) →
  is_ok (for_cells grid body s) = true
  ↔ ∀ r c v, cell grid r c = Some v → okx r c v = true.
Proof.
  intros Hok. rewrite for_cells_cells.
  rewrite (foldM_is_ok_iff _ (fun x : nat * nat * Z => okx x.1.1 x.1.2 x.2))
    by (intros s' [[r c] v]; apply Hok).
  split.
  - intros H r c v Hc. by apply (H (r, c, v)), elem_of_cells.
  - intros H [[r c] v] Hx. by apply H, elem_of_cells.
Qed.

Lemma is_ok_getitem2 grid r c :
  is_ok (getitem2 grid r c) = bool_decide (is_Some (cell grid r c)).
Proof.
  rewrite getitem2_cell. by destruct (cell grid r c).
Qed.

(** ** One list appended to *)

Section Emit1.
Context {X A : Type} (out : X → result (list A)).

Lemma foldM_emit1 xs a a' :
  foldM (emit1 out) a xs = Ok a' →
  ∃ os, Forall2 (fun x o => out x = Ok o) xs os ∧ a' = a ++ mjoin os.
Proof.
  revert a. induction xs as [|x xs IH]; intros a; cbn [foldM].
  - intros [= <-]. exists []. simpl. by rewrite app_nil_r.
  - unfold emit1 at 1. destruct (out x) as [o|e] eqn:Hx; [|done].
    cbn [bind]. intros (os & Hos & ->)%IH.
    exists (o :: os). split; [by constructor|].
    simpl. by rewrite (assoc_L (++)).
Qed.

Lemma foldM_emit1_elem xs a' e :
  foldM (emit1 out) [] xs = Ok a' →
  e ∈ a' ↔ ∃ x o, x ∈ xs ∧ out x = Ok o ∧ e ∈ o.
Proof.
  intros (os & Hos & ->)%foldM_emit1. simpl.
  induction Hos as [|x o xs os Hx _ IH]; simpl.
  - split; [by intros ?%elem_of_nil|by intros (? & ? & ?%elem_of_nil & _)].
  - rewrite elem_of_app, IH. split.
    + intros [He|(x' & o' & Hin & Ho & He)].
      * exists x, o. split_and!; [by left|done..].
      * exists x', o'. split_and!; [by right|done..].
    + intros (x' & o' & [->|Hin]%elem_of_cons & Ho & He).
      * left. rewrite Hx in Ho. by injection Ho as ->.
      * right. by exists x', o'.
Qed.
End Emit1.

(** ** Gates, activations and stations *)

Lemma gate_step_emit mod_nums r c mod_val st :
  gate_step mod_nums r c mod_val st = emit (gate_out mod_nums) st (r, c, mod_val).
Proof.
  destruct st as [gates activations]. unfold gate_step, emit, gate_out.
  destruct (getitem2 mod_nums r c) as [mod_num|]; cbn [bind]; [|done].
  destruct (_ || _); cbn [bind fst snd]; [by rewrite app_nil_r|].
  destruct (_ && _); cbn [bind fst snd]; by rewrite ?app_nil_r.
Qed.

Lemma collect_gates_emit lvl :
  collect_gates lvl
  = foldM (emit (gate_out (mod_nums lvl))) ([], []) (cells (mods lvl)).
Proof.
  unfold collect_gates. rewrite for_cells_cells. apply foldM_ext.
  intros st [[r c] v]. apply gate_step_emit.
Qed.

Lemma station_step_emit mod_nums r c mod_val st :
  station_step mod_nums r c mod_val st
  = emit1 (station_out mod_nums) st (r, c, mod_val).
Proof.
  unfold station_step, emit1, station_out.
  destruct (mod_val =? MOD_STATION); cbn [bind]; [|by rewrite app_nil_r].
  by destruct (getitem2 mod_nums r c).
Qed.

Lemma collect_stations_emit lvl :
  collect_stations lvl
  = foldM (emit1 (station_out (mod_nums lvl))) [] (cells (mods lvl)).
Proof.
  unfold collect_stations. rewrite for_cells_cells. apply foldM_ext.
  intros st [[r c] v]. apply station_step_emit.
Qed.

(** The gate list holds exactly the cells of [mods] with code 3 or 4, each
    with its group number and with the flag [true] for code 4 and [false]
    for code 3. *)
Theorem gates_are_the_gate_cells (lvl : Level) gates activations
    (R C n : Z) (flag : string) :
  collect_gates lvl = Ok (gates, activations) →
  (R, C, n, flag) ∈ gates
  ↔ ∃ r c mod_val,
      R = one_based r ∧ C = one_based c
      ∧ cell (mods lvl) r c = Some mod_val
      ∧ (mod_val = MOD_CLOSED_GATE ∨ mod_val = MOD_OPEN_GATE)
      ∧ cell (mod_nums lvl) r c = Some n
      ∧ flag = (if decide (mod_val = MOD_OPEN_GATE) then "true" else "false").
Proof.
  rewrite collect_gates_emit. intros (_ & Hg & _)%foldM_emit_elem.
  rewrite Hg. clear Hg. split.
  - intros ([[r c] m] & o & Hx%elem_of_cells & Ho & He).
    unfold gate_out in Ho. rewrite getitem2_cell in Ho.
    destruct (cell (mod_nums lvl) r c) as [k|] eqn:Hk; cbn [bind] in Ho;
      [|done].
    destruct (Z.eqb_spec m MOD_CLOSED_GATE) as [->|H3];
      [|destruct (Z.eqb_spec m MOD_OPEN_GATE) as [->|H4]]; cbn [orb] in Ho.
    + injection Ho as <-. apply list_elem_of_singleton in He.
      injection He as -> -> -> ->. exists r, c, MOD_CLOSED_GATE.
      split_and!; [done|done|done|by left|done|done].
    + injection Ho as <-. apply list_elem_of_singleton in He.
      injection He as -> -> -> ->. exists r, c, MOD_OPEN_GATE.
      split_and!; [done|done|done|by right|done|done].
    + destruct (_ && _); injection Ho as <-; by apply elem_of_nil in He.
  - intros (r & c & m & -> & -> & Hm & Hgate & Hn & ->).
    exists (r, c, m).
    destruct Hgate as [-> | ->]; eexists;
      (split; [by apply elem_of_cells|]);
      unfold gate_out; rewrite getitem2_cell, Hn; cbn;
      (split; [reflexivity|by left]).
Qed.

Lemma gates_are_the_gate_cells_witness :
  (1, 2, 7, "true") ∈ [(1, 2, 7, "true"); (2, 1, 0, "false")]
  ↔ ∃ r c mod_val,
      1 = one_based r ∧ 2 = one_based c
      ∧ cell [[0; 4]; [3; 1]] r c = Some mod_val
      ∧ (mod_val = MOD_CLOSED_GATE ∨ mod_val = MOD_OPEN_GATE)
      ∧ cell [[0; 7]; [0; 5]] r c = Some 7
      ∧ "true" = (if decide (mod_val = MOD_OPEN_GATE) then "true" else "false").
Proof.
  apply (gates_are_the_gate_cells
           (mkLevel [[3; 1]; [1; 1]] [[0; 4]; [3; 1]] [[0; 7]; [0; 5]] [] 1)
           [(1, 2, 7, "true"); (2, 1, 0, "false")] [(2, 2, 5)]).
  reflexivity.
Defined.

(** The activation list holds exactly the cells of [mods] with code 1 and
    a positive group number; a switch trigger with group number zero or
    below is left out. *)
Theorem activations_are_the_positive_switch_cells (lvl : Level)
    gates activations (R C n : Z) :
  collect_gates lvl = Ok (gates, activations) →
  (R, C, n) ∈ activations
  ↔ ∃ r c,
      R = one_based r ∧ C = one_based c
      ∧ cell (mods lvl) r c = Some MOD_SWITCH
      ∧ cell (mod_nums lvl) r c = Some n
      ∧ 0 < n.
Proof.
  rewrite collect_gates_emit. intros (_ & _ & Ha)%foldM_emit_elem.
  rewrite Ha. clear Ha. split.
  - intros ([[r c] m] & o & Hx%elem_of_cells & Ho & He).
    unfold gate_out in Ho. rewrite getitem2_cell in Ho.
    destruct (cell (mod_nums lvl) r c) as [k|] eqn:Hk; cbn [bind] in Ho;
      [|done].
    destruct (_ || _) eqn:Hgate.
    { injection Ho as <-. by apply elem_of_nil in He. }
    destruct (Z.eqb_spec m MOD_SWITCH) as [->|H1]; cbn [andb] in Ho.
    + destruct (Z.gtb_spec k 0); injection Ho as <-;
        [|by apply elem_of_nil in He].
      apply list_elem_of_singleton in He. injection He as -> -> ->.
      exists r, c. split_and!; [done..|lia].
    + injection Ho as <-. by apply elem_of_nil in He.
  - intros (r & c & -> & -> & Hm & Hn & Hpos).
    exists (r, c, MOD_SWITCH). eexists. split; [by apply elem_of_cells|].
    unfold gate_out. rewrite getitem2_cell, Hn. cbn [bind]. cbn.
    destruct (Z.gtb_spec n 0); [|lia]. split; [reflexivity|by left].
Qed.

Lemma activations_are_the_positive_switch_cells_witness :
  (2, 2, 5) ∈ [(2, 2, 5)]
  ↔ ∃ r c,
      2 = one_based r ∧ 2 = one_based c
      ∧ cell [[1; 4]; [3; 1]] r c = Some MOD_SWITCH
      ∧ cell [[0; 7]; [0; 5]] r c = Some 5
      ∧ 0 < 5.
Proof.
  apply (activations_are_the_positive_switch_cells
           (mkLevel [[3; 1]; [1; 1]] [[1; 4]; [3; 1]] [[0; 7]; [0; 5]] [] 1)
           [(1, 2, 7, "true"); (2, 1, 0, "false")] [(2, 2, 5)]).
  reflexivity.
Defined.

(** The station list holds exactly the cells of [mods] with code 6, each
    with its group number plus one. *)
Theorem stations_are_the_station_cells (lvl : Level) stations (R C t : Z) :
  collect_stations lvl = Ok stations →
  (R, C, t) ∈ stations
  ↔ ∃ r c n,
      R = one_based r ∧ C = one_based c
      ∧ cell (mods lvl) r c = Some MOD_STATION
      ∧ cell (mod_nums lvl) r c = Some n
      ∧ t = n + 1.
Proof.
  rewrite collect_stations_emit. intros Hs.
  rewrite (foldM_emit1_elem _ _ _ _ Hs). split.
  - intros ([[r c] m] & o & Hx%elem_of_cells & Ho & He).
    unfold station_out in Ho.
    destruct (Z.eqb_spec m MOD_STATION) as [->|H6].
    + rewrite getitem2_cell in Ho.
      destruct (cell (mod_nums lvl) r c) as [k|] eqn:Hk; cbn [bind] in Ho;
        [|done].
      injection Ho as <-. apply list_elem_of_singleton in He.
      injection He as -> -> ->. by exists r, c, k.
    + injection Ho as <-. by apply elem_of_nil in He.
  - intros (r & c & n & -> & -> & Hm & Hn & ->).
    exists (r, c, MOD_STATION). eexists. split; [by apply elem_of_cells|].
    unfold station_out. rewrite getitem2_cell, Hn. cbn.
    split; [reflexivity|by left].
Qed.

Lemma stations_are_the_station_cells_witness :
  (1, 1, 1) ∈ [(1, 1, 1); (2, 2, 3)]
  ↔ ∃ r c n,
      1 = one_based r ∧ 1 = one_based c
      ∧ cell [[6; 0]; [0; 6]] r c = Some MOD_STATION
      ∧ cell [[0; 0]; [0; 2]] r c = Some n
      ∧ 1 = n + 1.
Proof.
  apply (stations_are_the_station_cells
           (mkLevel [[3; 1]; [1; 1]] [[6; 0]; [0; 6]] [[0; 0]; [0; 2]] [] 1)
           [(1, 1, 1); (2, 2, 3)]).
  reflexivity.
Defined.

(** ** More on the placement loop *)

(** A cell that is not a tunnel mouth, whose board code has a token, and
    that is not a toggled three-way switch is placed with the token of the
    table as it is, once, and is not registered as a toggled switch.  This
    includes a toggling modifier on a piece that is no three-way switch. *)
Theorem plain_cell_is_placed_unchanged (lvl : Level) init dsw (r c : nat)
    (board_val mod_val : Z) (track_type : string) :
  collect_init lvl = Ok (init, dsw) →
  cell (board lvl) r c = Some board_val →
  cell (mods lvl) r c = Some mod_val →
  mod_val ≠ MOD_TUNNEL →
  BOARD_TO_TRACK_get board_val = Some track_type →
  is_toggled_switch mod_val track_type = false →
  (∀ t, (one_based r, one_based c, t) ∈ init ↔ t = track_type)
  ∧ (∀ n, (one_based r, one_based c, n) ∉ dsw).
Proof.
  intros Hinit Hb Hm Hnt Htok Hplain.
  destruct (collect_init_at _ _ _ _ _ _ Hinit Hb) as (o & Ho & Hi & Hd).
  unfold init_out in Ho. rewrite getitem2_cell, Hm in Ho. cbn [bind] in Ho.
  rewrite (proj2 (Z.eqb_neq _ _) Hnt), Htok in Ho.
  unfold is_toggled_switch in Hplain. rewrite Hplain in Ho.
  injection Ho as <-. cbn [fst snd] in Hi, Hd. split.
  - intros t. rewrite Hi, list_elem_of_singleton.
    split; [by intros [= ->]|by intros ->].
  - intros n. rewrite Hd. apply not_elem_of_nil.
Qed.

Lemma plain_cell_is_placed_unchanged_witness :
  (∀ t, (1, 1, t) ∈ [(1, 1, "CORNER_DR"); (1, 2, "STRAIGHT_RL")]
        ↔ t = "CORNER_DR")
  ∧ (∀ n : Z, (1, 1, n) ∉ @nil (Z * Z * Z)).
Proof.
  apply (plain_cell_is_placed_unchanged
           (mkLevel [[5; 3]] [[5; 0]] [[2; 0]] [] 1)
           [(1, 1, "CORNER_DR"); (1, 2, "STRAIGHT_RL")] [] 0 0 5 5 "CORNER_DR");
    [reflexivity|reflexivity|reflexivity|discriminate|reflexivity|reflexivity].
Defined.

(** A cell marked as a tunnel mouth is never placed and never registered,
    whatever its board code is. *)
Theorem tunnel_cell_is_never_placed (lvl : Level) init dsw (r c : nat)
    (board_val : Z) :
  collect_init lvl = Ok (init, dsw) →
  cell (board lvl) r c = Some board_val →
  cell (mods lvl) r c = Some MOD_TUNNEL →
  (∀ t, (one_based r, one_based c, t) ∉ init)
  ∧ (∀ n, (one_based r, one_based c, n) ∉ dsw).
Proof.
  intros Hinit Hb Hm.
  destruct (collect_init_at _ _ _ _ _ _ Hinit Hb) as (o & Ho & Hi & Hd).
  unfold init_out in Ho. rewrite getitem2_cell, Hm in Ho. cbn in Ho.
  injection Ho as <-. cbn [fst snd] in Hi, Hd. split.
  - intros t. rewrite Hi. apply not_elem_of_nil.
  - intros n. rewrite Hd. apply not_elem_of_nil.
Qed.

Lemma tunnel_cell_is_never_placed_witness :
  (∀ t, (1, 1, t) ∉ [(1, 2, "STRAIGHT_RL")])
  ∧ (∀ n : Z, (1, 1, n) ∉ @nil (Z * Z * Z)).
Proof.
  apply (tunnel_cell_is_never_placed
           (mkLevel [[9; 3]] [[2; 0]] [[2; 0]] [] 1)
           [(1, 2, "STRAIGHT_RL")] [] 0 0 9);
    reflexivity.
Defined.

(** Every entry of the toggled-switch list has a positive group number and
    stands for a piece the placement list holds at the same position under
    a [DSWITCH_] or [ESWITCH_] token. *)
Theorem registered_switch_is_placed (lvl : Level) init dsw (R C n : Z) :
  collect_init lvl = Ok (init, dsw) →
  (R, C, n) ∈ dsw →
  0 < n
  ∧ ∃ rest,
      (R, C, "DSWITCH_" +:+ rest) ∈ init ∨ (R, C, "ESWITCH_" +:+ rest) ∈ init.
Proof.
  intros Hinit Hin. pose proof Hinit as Hemit. rewrite collect_init_emit in Hemit.
  apply foldM_emit_elem in Hemit as (_ & _ & Hd).
  apply Hd in Hin as ([[r c] v] & o & Hx%elem_of_cells & Ho & He).
  destruct (init_out_coords _ _ _ _ _ _ Ho) as [_ Hco].
  specialize (Hco _ He) as Hpos. cbn [fst] in Hpos.
  injection Hpos as -> ->.
  destruct (collect_init_at _ _ _ _ _ _ Hinit Hx) as (o' & Ho' & Hi & _).
  rewrite Ho in Ho'. injection Ho' as <-.
  unfold init_out in Ho. rewrite getitem2_cell in Ho.
  destruct (cell (mods lvl) r c) as [m|] eqn:Hm; cbn [bind] in Ho; [|done].
  destruct (Z.eqb_spec m MOD_TUNNEL) as [->|Hnt].
  { injection Ho as <-. by apply elem_of_nil in He. }
  destruct (BOARD_TO_TRACK_get v) as [tok|] eqn:Htok.
  2: { injection Ho as <-. by apply elem_of_nil in He. }
  destruct (_ && startswith "SWITCH_" tok) eqn:Hts.
  2: { injection Ho as <-. by apply elem_of_nil in He. }
  apply andb_true_iff in Hts as [Hmod Hpre].
  destruct (table_switch_token _ _ Htok Hpre) as (rest & _ & HD & HE).
  rewrite getitem2_cell in Ho.
  destruct (cell (mod_nums lvl) r c) as [k|] eqn:Hk; cbn [bind] in Ho; [|done].
  injection Ho as <-. cbn [fst snd] in He, Hi.
  destruct (Z.gtb_spec k 0); [|by apply elem_of_nil in He].
  apply list_elem_of_singleton in He. injection He as ->.
  split; [lia|]. exists rest.
  destruct (m =? MOD_SWAPPING_TRACK); [left|right]; apply Hi;
    rewrite ?HD, ?HE; by left.
Qed.

Lemma registered_switch_is_placed_witness :
  0 < 2
  ∧ ∃ rest,
      (1, 1, "DSWITCH_" +:+ rest)
        ∈ [(1, 1, "DSWITCH_L_R_D"); (1, 2, "STRAIGHT_RL")]
      ∨ (1, 1, "ESWITCH_" +:+ rest)
        ∈ [(1, 1, "DSWITCH_L_R_D"); (1, 2, "STRAIGHT_RL")].
Proof.
  apply (registered_switch_is_placed
           (mkLevel [[9; 3]] [[5; 0]] [[2; 0]] [] 1)
           [(1, 1, "DSWITCH_L_R_D"); (1, 2, "STRAIGHT_RL")] [(1, 1, 2)] 1 1 2);
    [reflexivity|by left].
Defined.

(** ** When the conversion returns *)

Lemma collect_init_is_ok lvl :
  is_ok (collect_init lvl) = true
  ↔ ∀ r c v, cell (board lvl) r c = Some v →
      ∃ m, cell (mods lvl) r c = Some m
           ∧ (m ≠ MOD_TUNNEL →
              ∀ tok, BOARD_TO_TRACK_get v = Some tok →
                     is_toggled_switch m tok = true →
                     is_Some (cell (mod_nums lvl) r c)).
Proof.
  unfold collect_init.
  rewrite (for_cells_is_ok_iff _ _
             (fun r c v => is_ok (init_out (mods lvl) (mod_nums lvl) (r, c, v)))).
  2: { intros r c v st. rewrite init_step_emit. unfold emit.
       by destruct (init_out _ _ _). }
  apply forall_proper; intros r. apply forall_proper; intros c.
  apply forall_proper; intros v. apply forall_proper; intros Hc.
  unfold init_out, is_toggled_switch. rewrite getitem2_cell.
  destruct (cell (mods lvl) r c) as [m|]; cbn [bind is_ok].
  2: { split; [done|by intros (? & [=] & _)]. }
  destruct (Z.eqb_spec m MOD_TUNNEL) as [->|Hnt]; cbn [is_ok].
  { split; [|done]. intros _. by exists MOD_TUNNEL. }
  destruct (BOARD_TO_TRACK_get v) as [tok|]; cbn [is_ok].
  2: { split; [|done]. intros _. by exists m. }
  destruct (_ && startswith "SWITCH_" tok) eqn:Hts; cbn [is_ok].
  2: { split; [|done]. intros _. exists m. split; [done|].
       intros _ tok' [= <-] Hts'. congruence. }
  rewrite getitem2_cell.
  destruct (cell (mod_nums lvl) r c) as [n|]; cbn [bind is_ok].
  - split; [|done]. intros _. exists m. split; [done|by eauto].
  - split; [done|]. intros (m' & [= <-] & Hn).
    by destruct (Hn Hnt tok eq_refl Hts) as [? [=]].
Qed.

Lemma collect_tunnel_endpoints_is_ok lvl :
  is_ok (collect_tunnel_endpoints lvl) = true
  ↔ ∀ r c v, cell (board lvl) r c = Some v →
      ∃ m, cell (mods lvl) r c = Some m
           ∧ (m = MOD_TUNNEL → TUNNEL_DIR_contains v = true →
              is_Some (cell (mod_nums lvl) r c)).
Proof.
  unfold collect_tunnel_endpoints.
  rewrite (for_cells_is_ok_iff _ _
             (fun r c v =>
                match cell (mods lvl) r c with
                | Some m =>
                    if (m =? MOD_TUNNEL) && TUNNEL_DIR_contains v
                    then bool_decide (is_Some (cell (mod_nums lvl) r c))
                    else true
                | None => false
                end)).
  2: { intros r c v st. unfold tunnel_step. rewrite getitem2_cell.
       destruct (cell (mods lvl) r c) as [m|]; cbn [bind is_ok]; [|done].
       destruct (_ && _); [|done]. rewrite <- is_ok_getitem2.
       by destruct (getitem2 (mod_nums lvl) r c). }
  apply forall_proper; intros r. apply forall_proper; intros c.
  apply forall_proper; intros v. apply forall_proper; intros Hc.
  destruct (cell (mods lvl) r c) as [m|].
  2: { split; [done|by intros (? & [=] & _)]. }
  destruct (Z.eqb_spec m MOD_TUNNEL) as [->|Hnt]; cbn [andb].
  2: { split; [|done]. intros _. by exists m. }
  destruct (TUNNEL_DIR_contains v).
  2: { split; [|done]. intros _. by exists MOD_TUNNEL. }
  rewrite bool_decide_eq_true. split.
  - intros Hn. by exists MOD_TUNNEL.
  - intros (m' & [= <-] & Hn). by apply Hn.
Qed.

Lemma collect_gates_is_ok lvl :
  is_ok (collect_gates lvl) = true ↔ covers (mods lvl) (mod_nums lvl).
Proof.
  unfold collect_gates.
  rewrite (for_cells_is_ok_iff _ _
             (fun r c v => bool_decide (is_Some (cell (mod_nums lvl) r c)))).
  2: { intros r c v [gates activations]. unfold gate_step.
       rewrite <- is_ok_getitem2.
       destruct (getitem2 (mod_nums lvl) r c); cbn [bind is_ok]; [|done].
       destruct (_ || _); [done|]. by destruct (_ && _). }
  unfold covers. split.
  - intros H r c [v Hv]. by eapply bool_decide_eq_true, H.
  - intros H r c v Hv. apply bool_decide_eq_true, H. by eauto.
Qed.

Lemma collect_stations_covered lvl :
  covers (mods lvl) (mod_nums lvl) → is_ok (collect_stations lvl) = true.
Proof.
  intros Hcov. apply for_cells_ok. intros r c v st Hc. unfold station_step.
  destruct (v =? MOD_STATION); [|done].
  pose proof (getitem2_is_ok _ r c (Hcov r c (mk_is_Some _ _ Hc))) as Hn.
  by destruct (getitem2 (mod_nums lvl) r c).
Qed.

Lemma collect_tunnel_pairs_is_ok lvl :
  is_ok (collect_tunnel_pairs lvl) = is_ok (collect_tunnel_endpoints lvl).
Proof.
  unfold collect_tunnel_pairs.
  destruct (collect_tunnel_endpoints lvl) as [d|] eqn:Hd; cbn [bind]; [|done].
  by rewrite (pair_tunnels_groups lvl d Hd).
Qed.

(** The conversion returns a text exactly when the board has a cell with
    code 3, every train and decoy faces a direction of the table, every
    cell of [board] is a cell of [mods] and every cell of [mods] is a cell
    of [mod_nums].  So [mods] may be larger than [board] and [mod_nums]
    larger than [mods], but not smaller. *)
Theorem conversion_returns_iff (name : string) (lvl : Level) :
  is_ok (convert_level name lvl) = true
  ↔ (∃ r c, cell (board lvl) r c = Some 3)
    ∧ Forall car_direction_ok (cars lvl)
    ∧ covers (board lvl) (mods lvl)
    ∧ covers (mods lvl) (mod_nums lvl).
Proof.
  rewrite convert_level_is_ok. unfold collect_level. split.
  - destruct (find_target (board lvl)) as [t|] eqn:Ht; cbn [bind]; [|done].
    pose proof (collect_cars_is_ok (cars lvl)) as Hcars.
    destruct (collect_cars _) as [[trains decoys]|]; cbn [bind]; [|done].
    pose proof (collect_init_is_ok lvl) as Hinit.
    destruct (collect_init lvl) as [[init_pos dswitches]|]; cbn [bind]; [|done].
    destruct (collect_tunnel_pairs lvl); cbn [bind]; [|done].
    pose proof (collect_gates_is_ok lvl) as Hgates.
    destruct (collect_gates lvl) as [[gates activations]|]; cbn [bind]; [|done].
    intros _. split_and!.
    + destruct (find_target_Some _ _ Ht) as (r & c & _ & Hc & _). by eauto.
    + by apply Hcars.
    + intros r c [v Hv].
      destruct (proj1 Hinit eq_refl r c v Hv) as (m & Hm & _). by eauto.
    + by apply Hgates.
  - intros ((r & c & Hc) & Hcars & Hbm & Hmn).
    destruct (find_target (board lvl)) as [t|] eqn:Ht.
    2: { rewrite find_target_None in Ht. by destruct (Ht r c). }
    cbn [bind]. rewrite (collect_cars_ok _ Hcars). cbn [bind].
    assert (is_ok (collect_init lvl) = true) as Hi.
    { apply collect_init_is_ok. intros r' c' v Hv.
      destruct (Hbm r' c') as [m Hm]; [by eauto|]. exists m.
      split; [done|]. intros _ tok _ _. apply Hmn. by eauto. }
    destruct (collect_init lvl) as [[init_pos dswitches]|]; [|done]. cbn [bind].
    assert (is_ok (collect_tunnel_pairs lvl) = true) as Htp.
    { rewrite collect_tunnel_pairs_is_ok.
      apply collect_tunnel_endpoints_is_ok. intros r' c' v Hv.
      destruct (Hbm r' c') as [m Hm]; [by eauto|]. exists m.
      split; [done|]. intros _ _. apply Hmn. by eauto. }
    destruct (collect_tunnel_pairs lvl); [|done]. cbn [bind].
    assert (is_ok (collect_gates lvl) = true) as Hg
      by by apply collect_gates_is_ok.
    destruct (collect_gates lvl) as [[gates activations]|]; [|done]. cbn [bind].
    pose proof (collect_stations_covered lvl Hmn) as Hs.
    by destruct (collect_stations lvl).
Qed.

(** Whatever the conversion raises is the error that names the level, the
    failed lookup of a direction the table lacks, or a subscript out of
    range; the lookups in the tunnel table and in the dictionary of
    endpoints never fail. *)
Theorem conversion_raises_only (name : string) (lvl : Level) (e : exn) :
  convert_level name lvl = Raise e →
  (e = ValueError (no_target_message name) ∧ no_target_cell (board lvl))
  ∨ (∃ dir, e = KeyError dir ∧ (dir ∉ known_directions)
            ∧ ¬ Forall car_direction_ok (cars lvl))
  ∨ (e = IndexError
     ∧ ¬ (covers (board lvl) (mods lvl) ∧ covers (mods lvl) (mod_nums lvl))).
Proof.
  intros He. pose proof He as Hc%convert_level_raise.
  destruct (find_target (board lvl)) as [t|] eqn:Ht.
  - assert (¬ is_ok (convert_level name lvl) = true) as Hnok by by rewrite He.
    rewrite conversion_returns_iff in Hnok.
    destruct (find_target_Some _ _ Ht) as (r & c & _ & Hcell & _).
    destruct (collect_level_raise_with_target name lvl e) as [->|Hkey];
      [by rewrite Ht|done| |].
    + destruct (decide (Forall car_direction_ok (cars lvl))) as [Hcars|Hcars].
      * right; right. split; [done|]. intros [Hbm Hmn]. apply Hnok.
        split_and!; by eauto.
      * exfalso. unfold collect_level in Hc. rewrite Ht in Hc. cbn [bind] in Hc.
        destruct (first_bad_car _ Hcars) as (pre & bad & post & Heq & Hpre & Hb).
        rewrite Heq, collect_cars_raise in Hc by done. done.
    + destruct Hkey as (dir & Hdir & Hcars & ->). right; left.
      exists dir. split_and!; [done..|]. intros Hall%collect_cars_ok.
      congruence.
  - left. rewrite collect_level_no_target in Hc by done.
    injection Hc as <-. split; [done|].
    unfold no_target_cell. by apply find_target_None.
Qed.

Lemma conversion_raises_only_witness :
  (IndexError = ValueError (no_target_message "1-3")
   ∧ no_target_cell [[3; 1]])
  ∨ (∃ dir, IndexError = KeyError dir ∧ (dir ∉ known_directions)
            ∧ ¬ Forall car_direction_ok [])
  ∨ (IndexError = IndexError
     ∧ ¬ (covers [[3; 1]] [[0]] ∧ covers [[0]] [[0; 0]])).
Proof.
  apply (conversion_raises_only "1-3" (mkLevel [[3; 1]] [[0]] [[0; 0]] [] 1)).
  reflexivity.
Defined.

(** ** The dimensions and the target *)

Lemma collect_level_dims name lvl d :
  collect_level name lvl = Ok d →
  dzn_H d = length (board lvl)
  ∧ dzn_W d = match board lvl with row0 :: _ => length row0 | [] => O end
  ∧ dzn_tracks d = tracks lvl.
Proof.
  unfold collect_level. destruct (find_target (board lvl)); cbn [bind]; [|done].
  destruct (collect_cars _) as [[??]|]; cbn [bind]; [|done].
  destruct (collect_init _) as [[??]|]; cbn [bind]; [|done].
  destruct (collect_tunnel_pairs _); cbn [bind]; [|done].
  destruct (collect_gates _) as [[??]|]; cbn [bind]; [|done].
  destruct (collect_stations _); cbn [bind]; [|done].
  by intros [= <-].
Qed.

(** In every record the conversion produces the board has a first row,
    whose length is [W], so the width is never the 0 of a board without
    rows; [H] is the number of rows; and the target lies inside the grid:
    its row is between 1 and [H] and its column between 1 and the length
    of that row. *)
Theorem target_lies_in_the_grid (name : string) (lvl : Level) (d : Dzn) :
  collect_level name lvl = Ok d →
  ∃ row0 row,
    board lvl !! O = Some row0
    ∧ dzn_W d = length row0
    ∧ dzn_H d = length (board lvl)
    ∧ board lvl !! Z.to_nat ((dzn_target d).1 - 1) = Some row
    ∧ 1 ≤ (dzn_target d).1 ≤ Z.of_nat (dzn_H d)
    ∧ 1 ≤ (dzn_target d).2 ≤ Z.of_nat (length row).
Proof.
  intros Hd. destruct (collect_level_dims _ _ _ Hd) as (HH & HW & _).
  destruct (collect_level_fields _ _ _ Hd) as (Ht & _).
  destruct (find_target_Some _ _ Ht) as (r & c & Htc & Hc & _).
  rewrite Htc. cbn [fst snd]. unfold cell in Hc.
  destruct (board lvl !! r) as [row|] eqn:Hr; [|done].
  pose proof (lookup_lt_Some _ _ _ Hr) as Hrlt.
  pose proof (lookup_lt_Some _ _ _ Hc) as Hclt.
  destruct (board lvl) as [|row0 rest] eqn:Hb; [simpl in Hrlt; lia|].
  exists row0, row. unfold one_based. split_and!; [done|done|done| |lia..].
  replace (Z.to_nat (Z.of_nat r + 1 - 1)) with r by lia. done.
Qed.

Lemma target_lies_in_the_grid_witness :
  ∃ row0 row,
    [[1; 0]; [0; 3]] !! O = Some row0
    ∧ 2%nat = length row0
    ∧ 2%nat = length [[1; 0]; [0; 3]]
    ∧ [[1; 0]; [0; 3]] !! Z.to_nat (2 - 1) = Some row
    ∧ 1 ≤ 2 ≤ Z.of_nat 2
    ∧ 1 ≤ 2 ≤ Z.of_nat (length row).
Proof.
  apply (target_lies_in_the_grid "1-1"
           (mkLevel [[1; 0]; [0; 3]] [[0; 0]; [0; 0]] [[0; 0]; [0; 0]] [] 1)
           (mkDzn 2 2 1 (2, 2) [] [] [(1, 1, "STRAIGHT_RL"); (2, 2, "STRAIGHT_RL")]
              [] [] [] [] [])).
  reflexivity.
Defined.

(** ** More on the tunnels *)

Lemma collect_tunnel_pairs_elem (lvl : Level) tunnel_pairs
    (r1 c1 : Z) (dir1 : string) (r2 c2 : Z) (dir2 : string) :
  collect_tunnel_pairs lvl = Ok tunnel_pairs →
  (r1, c1, dir1, r2, c2, dir2) ∈ tunnel_pairs →
  ∃ id val1 val2,
    spec_group lvl id = [((r1, c1), val1); ((r2, c2), val2)]
    ∧ assoc val1 TUNNEL_DIR = Some dir1
    ∧ assoc val2 TUNNEL_DIR = Some dir2.
Proof.
  unfold collect_tunnel_pairs.
  destruct (collect_tunnel_endpoints lvl) as [d|] eqn:Hd; cbn [bind]; [|done].
  rewrite (pair_tunnels_groups lvl d Hd). intros [= <-].
  intros (recs & Hin & (id & -> & _)%list_elem_of_fmap)%list_elem_of_join.
  exists id. unfold group_records in Hin.
  pose proof (spec_group_known_code lvl id) as Hknown.
  destruct (spec_group lvl id) as [|[[a1 b1] v1] [|[[a2 b2] v2] [|e3 es]]];
    cbn [pair_endpoints] in Hin; try by apply elem_of_nil in Hin.
  destruct (TUNNEL_DIR_contains_getitem v1) as (d1 & Ha1 & Hg1).
  { eapply Hknown. by left. }
  destruct (TUNNEL_DIR_contains_getitem v2) as (d2 & Ha2 & Hg2).
  { eapply Hknown. right. by left. }
  rewrite Hg1, Hg2 in Hin. cbn [bind] in Hin.
  apply list_elem_of_singleton in Hin. injection Hin as -> -> -> -> -> ->.
  by exists v1, v2.
Qed.

(** Every record of the list of tunnel pairs comes from a group of exactly
    two endpoints: its positions are the two endpoints in row-major order
    and its directions are those of the table for their board codes. *)
Theorem tunnel_record_has_a_group (lvl : Level) tunnel_pairs
    (r1 c1 : Z) (dir1 : string) (r2 c2 : Z) (dir2 : string) :
  collect_tunnel_pairs lvl = Ok tunnel_pairs →
  (r1, c1, dir1, r2, c2, dir2) ∈ tunnel_pairs →
  ∃ id val1 val2,
    spec_group lvl id = [((r1, c1), val1); ((r2, c2), val2)]
    ∧ assoc val1 TUNNEL_DIR = Some dir1
    ∧ assoc val2 TUNNEL_DIR = Some dir2.
Proof. apply collect_tunnel_pairs_elem. Qed.

Lemma tunnel_record_has_a_group_witness :
  ∃ id val1 val2,
    spec_group (mkLevel [[17; 18; 3]] [[2; 2; 0]] [[1; 1; 0]] [] 1) id
    = [((1, 1), val1); ((1, 2), val2)]
    ∧ assoc val1 TUNNEL_DIR = Some "LEFT"
    ∧ assoc val2 TUNNEL_DIR = Some "RIGHT".
Proof.
  apply (tunnel_record_has_a_group
           (mkLevel [[17; 18; 3]] [[2; 2; 0]] [[1; 1; 0]] [] 1)
           [(1, 1, "LEFT", 1, 2, "RIGHT")]);
    [reflexivity|by left].
Defined.

(** A tunnel mouth is an endpoint of the group of its own number, and of
    no other group. *)
Lemma mouth_in_its_group lvl r c v id :
  cell (board lvl) r c = Some v →
  cell (mods lvl) r c = Some MOD_TUNNEL →
  TUNNEL_DIR_contains v = true →
  cell (mod_nums lvl) r c = Some id →
  ((one_based r, one_based c), v) ∈ spec_group lvl id.
Proof.
  intros Hb Hm Hv Hn. unfold spec_group. apply list_elem_of_omap.
  exists (r, c, v). split; [by apply elem_of_cells|].
  unfold spec_endpoint. rewrite Hm, Hn, Hv. cbn. by rewrite Z.eqb_refl.
Qed.

Lemma endpoint_group_unique lvl r c v id id' :
  cell (mod_nums lvl) r c = Some id →
  ((one_based r, one_based c), v) ∈ spec_group lvl id' → id' = id.
Proof.
  intros Hn. unfold spec_group. rewrite list_elem_of_omap.
  intros ([[r' c'] v'] & _ & He). unfold spec_endpoint in He.
  destruct (cell (mods lvl) r' c') as [m|]; [|done].
  destruct (cell (mod_nums lvl) r' c') as [k|] eqn:Hk; [|done].
  destruct (_ && (k =? id')) eqn:Hcond; [|done].
  injection He as ->%one_based_inj ->%one_based_inj _.
  apply andb_true_iff in Hcond as [_ ->%Z.eqb_eq]. congruence.
Qed.

(** The position of a tunnel mouth occurs in the list of tunnel pairs
    exactly when the group of its number has two endpoints.  The mouths of
    a group of one, or of three and more, occur in no record. *)
Theorem mouth_is_paired_iff (lvl : Level) tunnel_pairs (r c : nat) (v id : Z) :
  collect_tunnel_pairs lvl = Ok tunnel_pairs →
  cell (board lvl) r c = Some v →
  cell (mods lvl) r c = Some MOD_TUNNEL →
  TUNNEL_DIR_contains v = true →
  cell (mod_nums lvl) r c = Some id →
  (∃ dir r' c' dir',
     (one_based r, one_based c, dir, r', c', dir') ∈ tunnel_pairs
     ∨ (r', c', dir', one_based r, one_based c, dir) ∈ tunnel_pairs)
  ↔ length (spec_group lvl id) = 2%nat.
Proof.
  intros Htp Hb Hm Hv Hn.
  pose proof (mouth_in_its_group _ _ _ _ _ Hb Hm Hv Hn) as Hmine. split.
  - intros (dir & r' & c' & dir' & [Hin|Hin]);
      destruct (collect_tunnel_pairs_elem _ _ _ _ _ _ _ _ Htp Hin)
        as (id' & v1 & v2 & Hg & _);
      assert (id' = id) as ->
        by (eapply endpoint_group_unique; [done|]; rewrite Hg;
            first [by left|right; by left]);
      by rewrite Hg.
  - intros Hlen. unfold collect_tunnel_pairs in Htp.
    destruct (collect_tunnel_endpoints lvl) as [d|] eqn:Hd; cbn [bind] in Htp;
      [|done].
    rewrite (pair_tunnels_groups lvl d Hd) in Htp. injection Htp as <-.
    assert (id ∈ sorted_keys d) as Hkey.
    { apply sorted_keys_elem, (collect_tunnel_endpoints_keys lvl d id Hd).
      intros Hnil. by rewrite Hnil in Hlen. }
    assert (∀ rec, rec ∈ group_records lvl id →
              rec ∈ mjoin (group_records lvl <$> sorted_keys d)) as Hsub.
    { intros rec Hrec. apply list_elem_of_join. eexists. split; [done|].
      by apply list_elem_of_fmap_2. }
    unfold group_records in Hsub.
    pose proof (spec_group_known_code lvl id) as Hknown.
    destruct (spec_group lvl id) as [|[[a1 b1] v1] [|[[a2 b2] v2] [|e3 es]]];
      try done.
    cbn [pair_endpoints] in Hsub.
    destruct (TUNNEL_DIR_contains_getitem v1) as (d1 & _ & Hg1).
    { eapply Hknown. by left. }
    destruct (TUNNEL_DIR_contains_getitem v2) as (d2 & _ & Hg2).
    { eapply Hknown. right. by left. }
    rewrite Hg1, Hg2 in Hsub. cbn [bind] in Hsub.
    specialize (Hsub _ (list_elem_of_here _ _)).
    apply elem_of_cons in Hmine as [Heq|Hmine].
    + injection Heq as <- <- <-. exists d1, a2, b2, d2. by left.
    + apply list_elem_of_singleton in Hmine. injection Hmine as <- <- <-.
      exists d2, a1, b1, d1. by right.
Qed.

Lemma mouth_is_paired_iff_witness :
  (∃ dir r' c' dir',
     (one_based 0, one_based 1, dir, r', c', dir')
       ∈ [(1, 1, "LEFT", 1, 2, "RIGHT")]
     ∨ (r', c', dir', one_based 0, one_based 1, dir)
       ∈ [(1, 1, "LEFT", 1, 2, "RIGHT")])
  ↔ length (spec_group
              (mkLevel [[17; 18; 3; 19]] [[2; 2; 0; 2]] [[1; 1; 0; 5]] [] 1) 1)
    = 2%nat.
Proof.
  apply (mouth_is_paired_iff
           (mkLevel [[17; 18; 3; 19]] [[2; 2; 0; 2]] [[1; 1; 0; 5]] [] 1)
           [(1, 1, "LEFT", 1, 2, "RIGHT")] 0 1 18 1);
    reflexivity.
Defined.

(** * Properties of the batch loop *)

Lemma level_step_outcome a st name lvl :
  step_outcome a st name lvl (level_step a st (name, lvl)).
Proof.
  unfold level_step.
  destruct (startswith "#" name) eqn:Hhash; [by constructor|].
  destruct (prefix_mismatch a name) eqn:Hpre; [by constructor|].
  destruct (force a) eqn:Hforce; cbn [negb andb].
  - destruct (convert_level name lvl) as [s|e] eqn:Hconv.
    + apply (step_converted a st name lvl s); [|done].
      unfold conversion_attempted. by eauto.
    + apply (step_failed a st name lvl e); [|done].
      unfold conversion_attempted. by eauto.
  - destruct (files st !! output_path_of a name) as [old|] eqn:Hold.
    + rewrite bool_decide_eq_true_2 by eauto.
      apply step_existing_skip; [done..|]. rewrite Hold. by eauto.
    + rewrite bool_decide_eq_false_2 by (by intros [? [=]]).
      destruct (convert_level name lvl) as [s|e] eqn:Hconv.
      * apply (step_converted a st name lvl s); [|done].
        unfold conversion_attempted. by eauto.
      * apply (step_failed a st name lvl e); [|done].
        unfold conversion_attempted. by eauto.
Qed.

(** An invariant of the loop: what holds before and is kept by every
    iteration over a level of the batch holds after. *)
Lemma fold_level_step_ind (P : Run → Prop) a items st :
  P st →
  (∀ st name lvl st',
     (name, lvl) ∈ items → P st → step_outcome a st name lvl st' → P st') →
  P (fold_left (level_step a) items st).
Proof.
  revert st. induction items as [|[name lvl] items IH]; intros st Hst Hstep;
    cbn [fold_left]; [done|].
  apply IH.
  - eapply Hstep; [by left|done|apply level_step_outcome].
  - intros st0 n l st' Hin. apply Hstep. by right.
Qed.

Lemma main_loop_ind (P : Run → Prop) a levels st :
  P st →
  (∀ st name lvl st',
     (name, lvl) ∈ levels → P st → step_outcome a st name lvl st' → P st') →
  P (main_loop a levels st).
Proof.
  intros Hst Hstep. unfold main_loop. apply fold_level_step_ind; [done|].
  intros st0 name lvl st' Hin. apply Hstep.
  unfold sorted_items in Hin. by rewrite merge_sort_Permutation in Hin.
Qed.

(** Without [--force] the batch leaves every file that exists as it is. *)
Theorem existing_files_are_kept (a : Args) levels (st : Run)
    (p : path) (content : string) :
  force a = false →
  files st !! p = Some content →
  files (main_loop a levels st) !! p = Some content.
Proof.
  intros Hforce Hp.
  apply (main_loop_ind (fun st' => files st' !! p = Some content)); [done|].
  intros st0 name lvl st' _ Hst0 Hout.
  destruct Hout as [| | |s (_ & _ & [Hf|Hnone]) _|]; cbn [files after_conversion after_failure after_prefix_skip
         after_existing_skip]; try done.
  - congruence.
  - rewrite lookup_insert_ne; [done|]. intros <-. congruence.
Qed.

Lemma existing_files_are_kept_witness :
  files (main_loop (mkArgs false "data" None)
           [("1-1", mkLevel [[3]] [[0]] [[0]] [] 1)]
           (mkRun {[ ["data"; "1"; "1-1.dzn"] := "old" ]} ∅ [] [] 0 0 0))
    !! ["data"; "1"; "1-1.dzn"]
  = Some "old".
Proof.
  apply existing_files_are_kept; [reflexivity|apply lookup_singleton_eq].
Defined.

(** The batch never deletes a file, with or without [--force]. *)
Theorem files_are_never_deleted (a : Args) levels (st : Run) (p : path) :
  is_Some (files st !! p) → is_Some (files (main_loop a levels st) !! p).
Proof.
  intros Hp.
  apply (main_loop_ind (fun st' => is_Some (files st' !! p))); [done|].
  intros st0 name lvl st' _ Hst0 Hout.
  destruct Hout; cbn [files after_conversion after_failure after_prefix_skip
         after_existing_skip]; try done.
  rewrite lookup_insert. case_decide; by eauto.
Qed.

Lemma files_are_never_deleted_witness :
  is_Some
    (files (main_loop (mkArgs true "data" None)
              [("1-1", mkLevel [[3]] [[0]] [[0]] [] 1)]
              (mkRun {[ ["data"; "9"; "9-9.dzn"] := "old" ]} ∅ [] [] 0 0 0))
       !! ["data"; "9"; "9-9.dzn"]).
Proof.
  apply files_are_never_deleted. simpl. rewrite lookup_singleton_eq.
  by eexists.
Defined.



(** ** Counting the levels *)

Lemma step_outcome_tally a st name lvl st' :
  step_outcome a st name lvl st' →
  tally st' = (tally st + if startswith "#" name then 0 else 1)%nat.
Proof.
  unfold tally. intros [Hh|Hh _|Hh _ _ _|s (Hh & _) _|e (Hh & _) _];
    rewrite Hh; cbn; rewrite ?length_app; simpl; lia.
Qed.

Lemma fold_level_step_tally a items st :
  tally (fold_left (level_step a) items st)
  = (tally st + length (live_levels items))%nat.
Proof.
  revert st. induction items as [|[name lvl] items IH]; intros st;
    cbn [fold_left].
  - unfold live_levels. rewrite filter_nil. simpl. lia.
  - rewrite IH, (step_outcome_tally _ _ _ _ _ (level_step_outcome a st name lvl)).
    unfold live_levels. rewrite filter_cons. cbn [fst].
    destruct (startswith "#" name).
    + rewrite decide_False by done. lia.
    + rewrite decide_True by done. simpl. lia.
Qed.

(** Every level of the batch that is not commented out is accounted for
    exactly once: it is counted as converted, as skipped for its prefix or
    as skipped because its file exists, or it has a line on the error
    stream. *)
Theorem every_level_is_accounted_for (a : Args) levels (st : Run) :
  tally (main_loop a levels st)
  = (tally st + length (live_levels levels))%nat.
Proof.
  unfold main_loop. rewrite fold_level_step_tally. f_equal.
  unfold live_levels, sorted_items. by rewrite merge_sort_Permutation.
Qed.

(** With [--force] no level is skipped because its file exists, and
    without a prefix, or with the empty prefix, no level is skipped for
    its prefix. *)
Theorem skips_need_their_option (a : Args) levels (st : Run) :
  (force a = true →
   skipped_existing (main_loop a levels st) = skipped_existing st)
  ∧ (level_prefix a = None ∨ level_prefix a = Some "" →
     skipped_prefix (main_loop a levels st) = skipped_prefix st).
Proof.
  split.
  - intros Hforce.
    apply (main_loop_ind
             (fun st' => skipped_existing st' = skipped_existing st)); [done|].
    intros st0 name lvl st' _ Hst0 Hout. destruct Hout; try done.
    congruence.
  - intros Hpre.
    apply (main_loop_ind
             (fun st' => skipped_prefix st' = skipped_prefix st)); [done|].
    intros st0 name lvl st' _ Hst0 [|_ Hmis| | |]; try done.
    unfold prefix_mismatch in Hmis.
    by destruct Hpre as [Hp|Hp]; rewrite Hp in Hmis.
Qed.

Lemma skips_need_their_option_witness :
  skipped_existing
    (main_loop (mkArgs true "data" None)
       [("1-1", mkLevel [[3]] [[0]] [[0]] [] 1)]
       (mkRun {[ ["data"; "1"; "1-1.dzn"] := "old" ]} ∅ [] [] 0 0 0))
  = O
  ∧ skipped_prefix
      (main_loop (mkArgs true "data" (Some ""))
         [("1-1", mkLevel [[3]] [[0]] [[0]] [] 1)]
         (mkRun ∅ ∅ [] [] 0 0 0))
    = O.
Proof.
  split.
  - apply (proj1 (skips_need_their_option (mkArgs true "data" None)
                    [("1-1", mkLevel [[3]] [[0]] [[0]] [] 1)]
                    (mkRun {[ ["data"; "1"; "1-1.dzn"] := "old" ]} ∅
                       [] [] 0 0 0))).
    reflexivity.
  - apply (proj2 (skips_need_their_option (mkArgs true "data" (Some ""))
                    [("1-1", mkLevel [[3]] [[0]] [[0]] [] 1)]
                    (mkRun ∅ ∅ [] [] 0 0 0))).
    right. reflexivity.
Defined.

(** A progress line is printed for every tenth converted level and for
    nothing else: the standard output grows by as many lines as the count
    of converted levels passes multiples of ten.  (The count has just been
    incremented when the source tests [converted > 0], so that test always
    holds and only the test of the remainder decides.) *)
Theorem progress_every_tenth_level (a : Args) levels (st : Run) :
  (length (stdout (main_loop a levels st)) + converted st / 10
   = length (stdout st) + converted (main_loop a levels st) / 10)%nat.
Proof.
  apply (main_loop_ind
           (fun st' =>
              (length (stdout st') + converted st / 10
               = length (stdout st) + converted st' / 10)%nat)); [done|].
  intros st0 name lvl st' _ Hst0 Hout. destruct Hout; try done.
  cbn [stdout converted after_conversion].
  pose proof (Nat.div_mod_eq (S (converted st0)) 10) as H1.
  pose proof (Nat.div_mod_eq (converted st0) 10) as H2.
  pose proof (Nat.mod_upper_bound (S (converted st0)) 10 ltac:(lia)) as H3.
  pose proof (Nat.mod_upper_bound (converted st0) 10 ltac:(lia)) as H4.
  destruct (Nat.eqb_spec (S (converted st0) mod 10) 0) as [Hz|Hnz].
  - rewrite length_app. cbn [length]. lia.
  - lia.
Qed.

(** ** The world of a level and the prefix filter *)

Lemma before_dash_no_dash s : has_dash s = false → before_dash s = s.
Proof.
  induction s as [|ch s IH]; simpl; [done|].
  destruct (Ascii.eqb ch "-"); [done|]. simpl. intros H. by rewrite IH.
Qed.

(** The world of a level is the part of its name before the first dash:
    the whole name when it has no dash, and [w] for a name [w-rest] whose
    [w] has no dash.  The world itself never has a dash. *)
Theorem world_is_the_name_before_the_first_dash (w rest : string) :
  has_dash (before_dash rest) = false
  ∧ (has_dash w = false →
     before_dash w = w ∧ before_dash (w +:+ String "-" rest) = w).
Proof.
  split.
  - induction rest as [|ch s IH]; simpl; [done|].
    destruct (Ascii.eqb ch "-") eqn:Hch; [done|]. simpl. by rewrite Hch.
  - intros Hw. split; [by apply before_dash_no_dash|].
    induction w as [|ch w IH]; simpl in *; [done|].
    destruct (Ascii.eqb ch "-"); [done|]. simpl in Hw. by rewrite IH.
Qed.

Lemma world_is_the_name_before_the_first_dash_witness :
  before_dash "tutorial" = "tutorial" ∧ before_dash "10-3-b" = "10".
Proof.
  split.
  - apply (world_is_the_name_before_the_first_dash "tutorial" ""). reflexivity.
  - apply (world_is_the_name_before_the_first_dash "10" "3-b"). reflexivity.
Defined.

(** The empty prefix filters nothing: a batch with [--level-prefix ""]
    runs as a batch without the option. *)
Theorem empty_prefix_is_no_prefix (f : bool) (out : string) levels (st : Run) :
  main_loop (mkArgs f out (Some "")) levels st
  = main_loop (mkArgs f out None) levels st.
Proof.
  unfold main_loop. generalize (sorted_items levels) as items. intros items.
  revert st. induction items as [|[name lvl] items IH]; intros st;
    cbn [fold_left]; [done|].
  by rewrite IH.
Qed.

(** ** The order of the collected lists *)

Lemma enumerate_from_ge {A} k (l : list A) i x :
  (i, x) ∈ enumerate_from k l → (k ≤ i)%nat.
Proof. intros (j & -> & _)%elem_of_enumerate_from. lia. Qed.

Lemma enumerate_from_sorted {A} k (l : list A) :
  StronglySorted (fun x y : nat * A => (x.1 < y.1)%nat) (enumerate_from k l).
Proof.
  revert k. induction l as [|a l IH]; intros k; simpl; constructor; [done|].
  apply Forall_forall. intros [i x] Hin%enumerate_from_ge. simpl. lia.
Qed.

Lemma row_cells_sorted r row :
  in_scan_order cell_pos (row_cells (r, row)).
Proof.
  unfold in_scan_order, row_cells, enumerate. cbn [fst snd].
  apply (StronglySorted_fmap _ (fun x y : nat * Z => (x.1 < y.1)%nat));
    [|apply enumerate_from_sorted].
  intros [c1 v1] [c2 v2]. unfold pos_lt, cell_pos, one_based. simpl. lia.
Qed.

Lemma row_cells_row r row x : x ∈ row_cells (r, row) → x.1.1 = r.
Proof.
  unfold row_cells. intros (cv & -> & _)%list_elem_of_fmap. done.
Qed.

Lemma cells_from_sorted k (grid : list (list Z)) :
  in_scan_order cell_pos (enumerate_from k grid ≫= row_cells).
Proof.
  revert k. induction grid as [|row grid IH]; intros k; simpl; [constructor|].
  apply StronglySorted_app_2; [|apply row_cells_sorted|apply IH].
  intros x1 x2 Hx1%row_cells_row
    ([r row'] & Hx2%row_cells_row & Hr%enumerate_from_ge)%list_elem_of_bind.
  unfold pos_lt, cell_pos, one_based. simpl in *. left. lia.
Qed.

Lemma cells_sorted grid : in_scan_order cell_pos (cells grid).
Proof. apply cells_from_sorted. Qed.

(** Appending, cell by cell, at most one record that carries the position
    of the cell gives a list in scan order. *)
Lemma mjoin_in_scan_order {A} (pos : A → Z * Z) (xs : list (nat * nat * Z))
    (os : list (list A)) :
  in_scan_order cell_pos xs →
  Forall2 (fun x o => (length o ≤ 1)%nat ∧ ∀ e, e ∈ o → pos e = cell_pos x)
          xs os →
  in_scan_order pos (mjoin os).
Proof.
  unfold in_scan_order. intros Hxs Hos.
  induction Hos as [|x o xs os [Hlen Hpos] Hos IH]; simpl; [constructor|].
  apply StronglySorted_cons in Hxs as [Hx Hxs]. specialize (IH Hxs).
  destruct o as [|e [|e' o]]; simpl in *; [done| |lia].
  constructor; [done|]. apply Forall_forall.
  intros e2 (o2 & He2 & Ho2)%list_elem_of_join.
  apply list_elem_of_lookup in Ho2 as [i Hi].
  destruct (Forall2_lookup_r _ _ _ _ _ Hos Hi) as (x2 & Hx2 & _ & Hpos2).
  rewrite (Hpos e), (Hpos2 e2) by (done || by left).
  rewrite Forall_forall in Hx. apply Hx. by eapply list_elem_of_lookup_2.
Qed.

Lemma init_out_sizes mods mod_nums x o :
  init_out mods mod_nums x = Ok o →
  (length o.1 ≤ 1)%nat ∧ (length o.2 ≤ 1)%nat.
Proof.
  destruct x as [[r c] v]. unfold init_out.
  destruct (getitem2 mods r c) as [m|]; cbn [bind]; [|done].
  destruct (m =? MOD_TUNNEL); [intros [= <-]; simpl; lia|].
  destruct (BOARD_TO_TRACK_get v); [|intros [= <-]; simpl; lia].
  destruct (_ && _); [|intros [= <-]; simpl; lia].
  destruct (getitem2 mod_nums r c) as [n|]; cbn [bind]; [|done].
  intros [= <-]. cbn [fst snd]. destruct (n >? 0); simpl; lia.
Qed.

(** The placement list and the toggled-switch list go through the board in
    row-major order, and neither has two entries for one cell. *)
Theorem placements_are_in_scan_order (lvl : Level) init dsw :
  collect_init lvl = Ok (init, dsw) →
  in_scan_order (fun e : Z * Z * string => e.1) init
  ∧ in_scan_order (fun e : Z * Z * Z => e.1) dsw.
Proof.
  rewrite collect_init_emit. intros (os & Hos & -> & ->)%foldM_emit.
  cbn [app]. pose proof (cells_sorted (board lvl)) as Hsorted. split.
  - apply (mjoin_in_scan_order _ (cells (board lvl))); [done|].
    apply Forall2_fmap_r. eapply Forall2_impl; [exact Hos|].
    intros [[r c] v] o Ho. split; [by apply init_out_sizes in Ho as [? _]|].
    by apply init_out_coords in Ho as [? _].
  - apply (mjoin_in_scan_order _ (cells (board lvl))); [done|].
    apply Forall2_fmap_r. eapply Forall2_impl; [exact Hos|].
    intros [[r c] v] o Ho. split; [by apply init_out_sizes in Ho as [_ ?]|].
    by apply init_out_coords in Ho as [_ ?].
Qed.

Lemma placements_are_in_scan_order_witness :
  in_scan_order (fun e : Z * Z * string => e.1)
    [(1, 1, "DSWITCH_L_R_D"); (1, 2, "STRAIGHT_RL"); (2, 2, "ESWITCH_L_R_D")]
  ∧ in_scan_order (fun e : Z * Z * Z => e.1) [(1, 1, 2); (2, 2, 4)].
Proof.
  apply (placements_are_in_scan_order
           (mkLevel [[9; 3]; [0; 9]] [[5; 0]; [0; 7]] [[2; 0]; [0; 4]] [] 1)).
  reflexivity.
Defined.

(** ** The target and the placement list *)

(** The target cell is placed as a horizontal straight piece, unless it is
    marked as a tunnel mouth, in which case it is not placed at all. *)
Theorem target_is_placed_as_straight (name : string) (lvl : Level) (d : Dzn)
    (r c : nat) (mod_val : Z) :
  collect_level name lvl = Ok d →
  dzn_target d = (one_based r, one_based c) →
  cell (mods lvl) r c = Some mod_val →
  (∀ t, (one_based r, one_based c, t) ∈ dzn_init_pos d
        ↔ t = "STRAIGHT_RL" ∧ mod_val ≠ MOD_TUNNEL)
  ∧ (∀ n, (one_based r, one_based c, n) ∉ dzn_dswitches d).
Proof.
  intros Hd Htarget Hm.
  destruct (collect_level_fields _ _ _ Hd) as (Ht & _ & Hinit & _).
  destruct (find_target_Some _ _ Ht) as (r' & c' & Hrc & Hc & _).
  rewrite Htarget in Hrc.
  injection Hrc as <-%one_based_inj <-%one_based_inj.
  destruct (collect_init_at _ _ _ _ _ _ Hinit Hc) as (o & Ho & Hi & Hdsw).
  unfold init_out in Ho. rewrite getitem2_cell, Hm in Ho. cbn [bind] in Ho.
  destruct (Z.eqb_spec mod_val MOD_TUNNEL) as [->|Hnt].
  - injection Ho as <-. cbn [fst snd] in Hi, Hdsw. split.
    + intros t. rewrite Hi, elem_of_nil. split; [done|by intros [_ ?]].
    + intros n. rewrite Hdsw. apply not_elem_of_nil.
  - assert (BOARD_TO_TRACK_get 3 = Some "STRAIGHT_RL") as Hg by reflexivity.
    assert (startswith "SWITCH_" "STRAIGHT_RL" = false) as Hs by reflexivity.
    rewrite Hg, Hs, andb_false_r in Ho. injection Ho as <-.
    cbn [fst snd] in Hi, Hdsw. split.
    + intros t. rewrite Hi, list_elem_of_singleton.
      split; [by intros [= ->]|by intros [-> _]].
    + intros n. rewrite Hdsw. apply not_elem_of_nil.
Qed.

Lemma target_is_placed_as_straight_witness :
  (1, 1, "STRAIGHT_RL") ∈ [(1, 1, "STRAIGHT_RL")]
  ↔ "STRAIGHT_RL" = "STRAIGHT_RL" ∧ 0 ≠ MOD_TUNNEL.
Proof.
  apply (proj1 (target_is_placed_as_straight "1-1"
                  (mkLevel [[3]] [[0]] [[0]] [] 1)
                  (mkDzn 1 1 1 (1, 1) [] [] [(1, 1, "STRAIGHT_RL")]
                     [] [] [] [] [])
                  0 0 0 eq_refl eq_refl eq_refl)).
Defined.

(** ** The order of the levels *)

Global Instance item_le_trans : Transitive item_le.
Proof. intros x y z. unfold item_le. apply transitivity. Qed.

Global Instance item_le_total : Total item_le.
Proof. intros x y. unfold item_le. apply total, _. Qed.

Lemma NoDup_keys_functional {A B} (l : list (A * B)) k v1 v2 :
  NoDup l.*1 → (k, v1) ∈ l → (k, v2) ∈ l → v1 = v2.
Proof.
  induction l as [|[k' v'] l IH]; simpl; [by intros _ ?%elem_of_nil|].
  intros [Hk Hnd]%NoDup_cons
    [[= <- <-]|H1]%elem_of_cons [[= ->]|H2]%elem_of_cons; [done| | |by eauto].
  - destruct Hk. apply list_elem_of_fmap. by exists (k, v2).
  - destruct Hk. apply list_elem_of_fmap. by exists (k', v1).
Qed.

(** The batch does not depend on the order in which the levels are given:
    they are taken by ascending name, and the names of a dictionary are
    distinct. *)
Theorem batch_order_is_irrelevant (a : Args) levels1 levels2 (st : Run) :
  NoDup levels1.*1 →
  levels1 ≡ₚ levels2 →
  main_loop a levels1 st = main_loop a levels2 st.
Proof.
  intros Hnd Hperm. unfold main_loop. f_equal. unfold sorted_items.
  apply (Sorted_unique_strong item_le).
  - intros [n1 l1] [n2 l2] H1 H2 Hle1 Hle2.
    rewrite merge_sort_Permutation in H1, H2. rewrite <- Hperm in H2.
    unfold item_le in *. simpl in *.
    assert (n1 = n2) as -> by by apply (anti_symm String.le).
    f_equal. by eapply NoDup_keys_functional.
  - apply Sorted_merge_sort, _.
  - apply Sorted_merge_sort, _.
  - by rewrite !merge_sort_Permutation.
Qed.

Lemma batch_order_is_irrelevant_witness :
  main_loop (mkArgs true "data" None)
    [("1-2", mkLevel [[1]] [[0]] [[0]] [] 1);
     ("1-1", mkLevel [[3]] [[0]] [[0]] [] 1)]
    (mkRun ∅ ∅ [] [] 0 0 0)
  = main_loop (mkArgs true "data" None)
      [("1-1", mkLevel [[3]] [[0]] [[0]] [] 1);
       ("1-2", mkLevel [[1]] [[0]] [[0]] [] 1)]
      (mkRun ∅ ∅ [] [] 0 0 0).
Proof.
  apply batch_order_is_irrelevant; [compute_done|apply Permutation_swap].
Defined.

(** ** The order of gates, activations and stations *)

Lemma gate_out_sizes mod_nums x o :
  gate_out mod_nums x = Ok o →
  ((length o.1 ≤ 1)%nat ∧ ∀ e, e ∈ o.1 → e.1.1 = cell_pos x)
  ∧ ((length o.2 ≤ 1)%nat ∧ ∀ e, e ∈ o.2 → e.1 = cell_pos x).
Proof.
  destruct x as [[r c] m]. unfold gate_out.
  destruct (getitem2 mod_nums r c) as [n|]; cbn [bind]; [|done].
  destruct (_ || _).
  { intros [= <-]. cbn [fst snd]. split; (split; [simpl; lia|]).
    - by intros e ->%list_elem_of_singleton.
    - by intros e ?%elem_of_nil. }
  destruct (_ && _); intros [= <-]; cbn [fst snd];
    split; (split; [simpl; lia|]);
    first [by intros e ?%elem_of_nil|by intros e ->%list_elem_of_singleton].
Qed.

Lemma station_out_sizes mod_nums x o :
  station_out mod_nums x = Ok o →
  (length o ≤ 1)%nat ∧ ∀ e, e ∈ o → e.1 = cell_pos x.
Proof.
  destruct x as [[r c] m]. unfold station_out.
  destruct (m =? MOD_STATION).
  - destruct (getitem2 mod_nums r c) as [n|]; cbn [bind]; [|done].
    intros [= <-]. split; [simpl; lia|].
    by intros e ->%list_elem_of_singleton.
  - intros [= <-]. split; [simpl; lia|]. by intros e ?%elem_of_nil.
Qed.

(** The lists of gates, of activations and of stations go through the
    grid of modifiers in row-major order, and none has two entries for one
    cell. *)
Theorem modifiers_are_in_scan_order (lvl : Level) gates activations stations :
  collect_gates lvl = Ok (gates, activations) →
  collect_stations lvl = Ok stations →
  in_scan_order (fun e : Z * Z * Z * string => e.1.1) gates
  ∧ in_scan_order (fun e : Z * Z * Z => e.1) activations
  ∧ in_scan_order (fun e : Z * Z * Z => e.1) stations.
Proof.
  rewrite collect_gates_emit, collect_stations_emit.
  intros (os & Hos & -> & ->)%foldM_emit (ss & Hss & ->)%foldM_emit1.
  cbn [app]. pose proof (cells_sorted (mods lvl)) as Hsorted. split_and!.
  - apply (mjoin_in_scan_order _ (cells (mods lvl))); [done|].
    apply Forall2_fmap_r. eapply Forall2_impl; [exact Hos|].
    intros x o Ho. by apply gate_out_sizes in Ho as [? _].
  - apply (mjoin_in_scan_order _ (cells (mods lvl))); [done|].
    apply Forall2_fmap_r. eapply Forall2_impl; [exact Hos|].
    intros x o Ho. by apply gate_out_sizes in Ho as [_ ?].
  - apply (mjoin_in_scan_order _ (cells (mods lvl))); [done|].
    eapply Forall2_impl; [exact Hss|].
    intros x o Ho. by apply station_out_sizes in Ho.
Qed.

Lemma modifiers_are_in_scan_order_witness :
  in_scan_order (fun e : Z * Z * Z * string => e.1.1)
    [(1, 2, 7, "true"); (2, 1, 0, "false")]
  ∧ in_scan_order (fun e : Z * Z * Z => e.1) [(1, 1, 3); (2, 2, 5)]
  ∧ in_scan_order (fun e : Z * Z * Z => e.1) [(1, 3, 1); (2, 3, 2)].
Proof.
  apply (modifiers_are_in_scan_order
           (mkLevel [[3; 1; 1]; [1; 1; 1]] [[1; 4; 6]; [3; 1; 6]]
              [[3; 7; 0]; [0; 5; 1]] [] 1));
    reflexivity.
Defined.

(** * The batch loop on a file system that can fail *)

(** A level whose name has a slash converts, but its file would lie in a
    directory nobody made: [write_text] raises, the loop reports it and
    counts no conversion. *)
Example write_text_failure_is_reported :
  main_loop_io (mkArgs false "data" None)
    (fun _ => mkAnswers None (inl false) (Some "No such file or directory"))
    [("1-a/b", mkLevel [[3]] [[0]] [[0]] [] 1)]
    (mkRunIO [] [] [] 0 0 0)
  = {| calls :=
         [ Mkdir ["data"; "1"] None;
           Exists ["data"; "1"; "1-a/b.dzn"] (inl false);
           WriteText ["data"; "1"; "1-a/b.dzn"]
             (render (mkDzn 1 1 1 (1, 1) [] [] [(1, 1, "STRAIGHT_RL")]
                        [] [] [] [] []))
             (Some "No such file or directory") ];
       io_stdout := [];
       io_stderr :=
         [("1-a/b", FromFileSystem "No such file or directory")];
       io_converted := 0; io_skipped_prefix := 0;
       io_skipped_existing := 0 |}.
Proof. by vm_compute. Qed.

(** ** Invariants of the loop with calls *)

Ltac io_step_cases :=
  unfold level_step_io, convert_and_write; repeat case_match; simplify_eq.

Lemma level_step_io_calls a ans st item :
  ∃ new, calls (level_step_io a ans st item) = calls st ++ new.
Proof.
  destruct item as [name lvl]. io_step_cases; cbn;
    rewrite <- ?(assoc_L (++)); try (by eexists);
    exists []; by rewrite app_nil_r.
Qed.

Lemma fold_level_step_io_ind (P : RunIO → Prop) a env k items st :
  P st →
  (∀ st ans name lvl,
     (name, lvl) ∈ items → P st → P (level_step_io a ans st (name, lvl))) →
  P (fold_left
       (fun st (ix : nat * (string * Level)) =>
          level_step_io a (env ix.1) st ix.2)
       (enumerate_from k items) st).
Proof.
  revert k st. induction items as [|[name lvl] items IH]; intros k st Hst Hstep;
    cbn [fold_left enumerate_from]; [done|].
  apply IH.
  - apply Hstep; [by left|done].
  - intros st0 ans n l Hin. apply Hstep. by right.
Qed.

Lemma main_loop_io_ind (P : RunIO → Prop) a env levels st :
  P st →
  (∀ st ans name lvl,
     (name, lvl) ∈ levels → P st → P (level_step_io a ans st (name, lvl))) →
  P (main_loop_io a env levels st).
Proof.
  intros Hst Hstep. unfold main_loop_io, enumerate.
  apply fold_level_step_io_ind; [done|].
  intros st0 ans name lvl Hin. apply Hstep.
  unfold sorted_items in Hin. by rewrite merge_sort_Permutation in Hin.
Qed.

(** What the iteration of a level establishes, and no iteration undoes,
    holds after the loop. *)
Lemma fold_level_step_io_reaches (Q : RunIO → Prop) a env k items st name lvl :
  (name, lvl) ∈ items →
  (∀ st ans, Q (level_step_io a ans st (name, lvl))) →
  (∀ st ans item, Q st → Q (level_step_io a ans st item)) →
  Q (fold_left
       (fun st (ix : nat * (string * Level)) =>
          level_step_io a (env ix.1) st ix.2)
       (enumerate_from k items) st).
Proof.
  intros Hin Hmine Hkeep. revert k st.
  induction items as [|item items IH]; intros k st;
    [by apply elem_of_nil in Hin|].
  cbn [fold_left enumerate_from fst snd].
  apply elem_of_cons in Hin as [<-|Hin]; [|by apply IH].
  generalize (S k). intros k'.
  assert (∀ st', Q st' →
            Q (fold_left
                 (fun st (ix : nat * (string * Level)) =>
                    level_step_io a (env ix.1) st ix.2)
                 (enumerate_from k' items) st')) as Hrest.
  { clear IH. revert k'. induction items as [|it items IH]; intros k' st' Hq;
      cbn [fold_left enumerate_from]; [done|].
    apply IH. cbn [fst snd]. by apply Hkeep. }
  apply Hrest, Hmine.
Qed.

Lemma main_loop_io_reaches (Q : RunIO → Prop) a env levels st name lvl :
  (name, lvl) ∈ levels →
  (∀ st ans, Q (level_step_io a ans st (name, lvl))) →
  (∀ st ans item, Q st → Q (level_step_io a ans st item)) →
  Q (main_loop_io a env levels st).
Proof.
  intros Hin. unfold main_loop_io, enumerate.
  apply fold_level_step_io_reaches.
  unfold sorted_items. by rewrite merge_sort_Permutation.
Qed.

Lemma calls_kept a ans st item c :
  c ∈ calls st → c ∈ calls (level_step_io a ans st item).
Proof.
  intros Hc. destruct (level_step_io_calls a ans st item) as [new ->].
  apply elem_of_app. by left.
Qed.

(** ** What one iteration adds *)

Lemma level_step_io_new_calls a ans st name lvl :
  ∃ new,
    calls (level_step_io a ans st (name, lvl)) = calls st ++ new
    ∧ io_converted (level_step_io a ans st (name, lvl))
      = (io_converted st + length (filter is_written new))%nat
    ∧ ∀ c, c ∈ new →
        taken_up a name
        ∧ ((∃ r, c = Mkdir (output_dir_of a name) r)
           ∨ (force a = false ∧ ∃ b, c = Exists (output_path_of a name) b)
           ∨ (∃ content r,
                c = WriteText (output_path_of a name) content r
                ∧ convert_level name lvl = Ok content)).
Proof.
  unfold taken_up. io_step_cases; cbn; rewrite <- ?(assoc_L (++)); simpl;
    (first [eexists; split; [reflexivity|]
           |exists []; split; [by rewrite app_nil_r|]]);
    (split; [cbn; repeat case_decide; try tauto; simpl; lia|]);
    intros c Hc; repeat (apply elem_of_cons in Hc as [->|Hc]);
    try (by apply elem_of_nil in Hc);
    (split; [done|]); naive_solver.
Qed.

Lemma level_step_io_new_errors a ans st name lvl :
  ∃ new,
    io_stderr (level_step_io a ans st (name, lvl)) = io_stderr st ++ new
    ∧ ∀ n err, (n, err) ∈ new →
        n = name ∧ taken_up a name
        ∧ match err with
          | FromConversion e => convert_level name lvl = Raise e
          | FromFileSystem msg =>
              ∃ c, c ∈ calls (level_step_io a ans st (name, lvl))
                   ∧ call_raised c = Some msg
                   ∧ (call_path c = output_dir_of a name
                      ∨ call_path c = output_path_of a name)
          end.
Proof.
  unfold taken_up.
  destruct (startswith "#" name) eqn:Hhash.
  { exists []. unfold level_step_io. rewrite Hhash.
    split; [by rewrite app_nil_r|]. by intros ?? ?%elem_of_nil. }
  destruct (prefix_mismatch a name) eqn:Hpre.
  { exists []. unfold level_step_io. rewrite Hhash, Hpre.
    split; [by rewrite app_nil_r|]. by intros ?? ?%elem_of_nil. }
  unfold level_step_io, convert_and_write. rewrite Hhash, Hpre.
  destruct (mkdir_raises ans) as [msg|].
  { eexists. split; [reflexivity|].
    intros n err [= -> ->]%list_elem_of_singleton. split_and!; [done..|].
    eexists. split; [cbn; apply elem_of_app; right; by left|]. by split; [|left]. }
  destruct (force a).
  - destruct (convert_level name lvl) as [content|e] eqn:Hconv.
    + destruct (write_text_raises ans) as [msg|].
      * eexists. split; [reflexivity|].
        intros n err [= -> ->]%list_elem_of_singleton. split_and!; [done..|].
        eexists. split; [cbn; apply elem_of_app; right; by left|].
        by split; [|right].
      * exists []. split; [cbn; by rewrite app_nil_r|].
        by intros ?? ?%elem_of_nil.
    + eexists. split; [reflexivity|].
      by intros n err [= -> ->]%list_elem_of_singleton.
  - destruct (exists_answer ans) as [[|]|msg].
    + exists []. split; [cbn; by rewrite app_nil_r|].
      by intros ?? ?%elem_of_nil.
    + destruct (convert_level name lvl) as [content|e] eqn:Hconv.
      * destruct (write_text_raises ans) as [msg|].
        -- eexists. split; [reflexivity|].
           intros n err [= -> ->]%list_elem_of_singleton.
           split_and!; [done..|].
           eexists. split; [cbn; apply elem_of_app; right; by left|].
           by split; [|right].
        -- exists []. split; [cbn; by rewrite app_nil_r|].
           by intros ?? ?%elem_of_nil.
      * eexists. split; [reflexivity|].
        by intros n err [= -> ->]%list_elem_of_singleton.
    + eexists. split; [reflexivity|].
      intros n err [= -> ->]%list_elem_of_singleton. split_and!; [done..|].
      eexists. split; [cbn; apply elem_of_app; right; by left|].
      by split; [|right].
Qed.

Lemma level_step_io_mkdir a ans st name lvl :
  taken_up a name →
  ∃ r, Mkdir (output_dir_of a name) r
       ∈ calls (level_step_io a ans st (name, lvl)).
Proof.
  intros [Hhash Hpre]. unfold level_step_io. rewrite Hhash, Hpre.
  destruct (mkdir_raises ans) as [msg|].
  - exists (Some msg). cbn. apply elem_of_app. right. by left.
  - exists None.
    assert (Mkdir (output_dir_of a name) None
            ∈ calls (with_call (Mkdir (output_dir_of a name) None) st)) as Hin.
    { cbn. apply elem_of_app. right. by left. }
    revert Hin. generalize (with_call (Mkdir (output_dir_of a name) None) st).
    intros st1 Hin. unfold convert_and_write.
    repeat case_match; cbn; rewrite ?elem_of_app; by eauto.
Qed.


(** ** The calls and the reports of a batch *)

(** Every line the batch adds to the error stream names a level of the
    batch that the loop takes up.  The exception on the line is the one
    the conversion of that level raises, or it is what a file-system call
    for that level raised: its [mkdir], its [exists] or its [write_text].
    The lines that were there stay. *)
Theorem error_lines_name_their_cause (a : Args) (env : nat → Answers)
    levels (st : RunIO) :
  ∃ new,
    io_stderr (main_loop_io a env levels st) = io_stderr st ++ new
    ∧ ∀ name err, (name, err) ∈ new →
        taken_up a name
        ∧ ∃ lvl,
            (name, lvl) ∈ levels
            ∧ match err with
              | FromConversion e => convert_level name lvl = Raise e
              | FromFileSystem msg =>
                  ∃ c, c ∈ calls (main_loop_io a env levels st)
                       ∧ call_raised c = Some msg
                       ∧ (call_path c = output_dir_of a name
                          ∨ call_path c = output_path_of a name)
              end.
Proof.
  apply (main_loop_io_ind
           (fun st' => ∃ new,
              io_stderr st' = io_stderr st ++ new
              ∧ ∀ name err, (name, err) ∈ new →
                  taken_up a name
                  ∧ ∃ lvl,
                      (name, lvl) ∈ levels
                      ∧ match err with
                        | FromConversion e => convert_level name lvl = Raise e
                        | FromFileSystem msg =>
                            ∃ c, c ∈ calls st'
                                 ∧ call_raised c = Some msg
                                 ∧ (call_path c = output_dir_of a name
                                    ∨ call_path c = output_path_of a name)
                        end)).
  - exists []. split; [by rewrite app_nil_r|]. by intros ?? ?%elem_of_nil.
  - intros st0 ans name lvl Hin (new & Hnew & Hall).
    destruct (level_step_io_new_errors a ans st0 name lvl)
      as (new' & Hnew' & Hall').
    exists (new ++ new'). split; [by rewrite Hnew', Hnew, (assoc_L (++))|].
    intros n err [Hold|Hmine]%elem_of_app.
    + destruct (Hall n err Hold) as (Hup & l & Hl & Herr).
      split; [done|]. exists l. split; [done|].
      destruct err as [e|msg]; [done|].
      destruct Herr as (c & Hc & Hr). exists c. split; [|done].
      by apply calls_kept.
    + destruct (Hall' n err Hmine) as (-> & Hup & Herr).
      split; [done|]. by exists lvl.
Qed.



(** After the batch, [mkdir] has been called on a path exactly when it had
    been before, or the path is the base directory with the world of a
    level of the batch that the loop takes up.  Such a level has its
    call whether it is then skipped as existing, converted, or fails: the
    call comes before the file is looked for and before the conversion is
    tried. *)
Theorem mkdir_is_called_for_every_level_taken_up (a : Args)
    (env : nat → Answers) levels (st : RunIO) (d : path) :
  (∃ r, Mkdir d r ∈ calls (main_loop_io a env levels st))
  ↔ (∃ r, Mkdir d r ∈ calls st)
    ∨ ∃ name lvl,
        (name, lvl) ∈ levels ∧ taken_up a name ∧ d = output_dir_of a name.
Proof.
  split.
  - apply (main_loop_io_ind
             (fun st' => (∃ r, Mkdir d r ∈ calls st') →
                (∃ r, Mkdir d r ∈ calls st)
                ∨ ∃ name lvl,
                    (name, lvl) ∈ levels ∧ taken_up a name
                    ∧ d = output_dir_of a name)); [by left|].
    intros st0 ans name lvl Hin Hst0 [r Hr].
    destruct (level_step_io_new_calls a ans st0 name lvl)
      as (new & Hnew & _ & Hall).
    rewrite Hnew in Hr. apply elem_of_app in Hr as [Hold|Hmine].
    + apply Hst0. by exists r.
    + destruct (Hall _ Hmine) as (Hup & [[r' [= -> ->]]|[[_ [b [=]]]|Hw]]).
      * right. by exists name, lvl.
      * by destruct Hw as (? & ? & [=] & _).
  - intros [[r Hr]|(name & lvl & Hin & Hup & ->)].
    + exists r.
      by apply (main_loop_io_ind (fun st' => Mkdir d r ∈ calls st'));
        [|intros st0 ans n l _ Hc; apply calls_kept].
    + apply (main_loop_io_reaches
               (fun st' => ∃ r, Mkdir (output_dir_of a name) r ∈ calls st')
               a env levels st name lvl Hin).
      * intros st0 ans. by apply level_step_io_mkdir.
      * intros st0 ans item [r Hr]. exists r. by apply calls_kept.
Qed.

(** The count of converted levels grows by the number of calls of
    [write_text] that returned, and every call of [write_text] the batch
    adds, returned or not, has the output path of a level of the batch
    that the loop takes up and the text that level converts to. *)
Theorem converted_counts_the_writes (a : Args) (env : nat → Answers)
    levels (st : RunIO) :
  ∃ new,
    calls (main_loop_io a env levels st) = calls st ++ new
    ∧ io_converted (main_loop_io a env levels st)
      = (io_converted st + length (filter is_written new))%nat
    ∧ ∀ p content r, WriteText p content r ∈ new →
        ∃ name lvl,
          (name, lvl) ∈ levels ∧ taken_up a name
          ∧ p = output_path_of a name
          ∧ convert_level name lvl = Ok content.
Proof.
  apply (main_loop_io_ind
           (fun st' => ∃ new,
              calls st' = calls st ++ new
              ∧ io_converted st'
                = (io_converted st + length (filter is_written new))%nat
              ∧ ∀ p content r, WriteText p content r ∈ new →
                  ∃ name lvl,
                    (name, lvl) ∈ levels ∧ taken_up a name
                    ∧ p = output_path_of a name
                    ∧ convert_level name lvl = Ok content)).
  - exists []. split_and!; [by rewrite app_nil_r|simpl; lia|].
    by intros ??? ?%elem_of_nil.
  - intros st0 ans name lvl Hin (new & Hnew & Hcount & Hall).
    destruct (level_step_io_new_calls a ans st0 name lvl)
      as (new' & Hnew' & Hcount' & Hall').
    exists (new ++ new'). split_and!.
    + by rewrite Hnew', Hnew, (assoc_L (++)).
    + rewrite Hcount', Hcount, filter_app, length_app. lia.
    + intros p content r [Hold|Hmine]%elem_of_app; [by eapply Hall|].
      destruct (Hall' _ Hmine) as (Hup & [[? [=]]|[[_ [? [=]]]|Hw]]).
      destruct Hw as (content' & r' & [= -> -> ->] & Hconv).
      by exists name, lvl.
Qed.

(** ** The loop without failures *)

(** On a file system that raises nothing and answers [exists] by the
    files written so far, the loop with calls goes as [level_step] does:
    the same output, the same error lines, the same counts, and the files
    of [level_step] are the texts the calls of [write_text] left. *)
Lemma level_step_io_ideal a st sio name lvl :
  same_counters st sio →
  ∃ new,
    calls (level_step_io a (ideal_answers a st name) sio (name, lvl))
    = calls sio ++ new
    ∧ files (level_step a st (name, lvl)) = apply_writes new (files st)
    ∧ same_counters (level_step a st (name, lvl))
        (level_step_io a (ideal_answers a st name) sio (name, lvl)).
Proof.
  unfold same_counters. intros (Hout & Herr & Hconv & Hpre & Hex).
  unfold level_step, level_step_io, convert_and_write, ideal_answers.
  cbn [mkdir_raises exists_answer write_text_raises].
  destruct (startswith "#" name).
  { exists []. by rewrite app_nil_r. }
  destruct (prefix_mismatch a name).
  { exists []. cbn. rewrite app_nil_r. split_and!; (done || by f_equal). }
  destruct (force a); cbn [negb andb].
  - destruct (convert_level name lvl) as [content|e].
    + eexists. cbn. rewrite <- (assoc_L (++)). split; [reflexivity|].
      cbn. rewrite Hout, Hconv. split_and!; (done || by f_equal).
    + eexists. cbn. split; [reflexivity|]. cbn.
      rewrite fmap_app, Herr. by split_and!.
  - destruct (bool_decide (is_Some (files st !! output_path_of a name))).
    + eexists. cbn. rewrite <- (assoc_L (++)). split; [reflexivity|].
      cbn. split_and!; (done || by f_equal).
    + destruct (convert_level name lvl) as [content|e].
      * eexists. cbn. rewrite <- !(assoc_L (++)). split; [reflexivity|].
        cbn. rewrite Hout, Hconv. split_and!; (done || by f_equal).
      * eexists. cbn. rewrite <- (assoc_L (++)). split; [reflexivity|]. cbn.
        rewrite fmap_app, Herr. by split_and!.
Qed.
